(** * Reference wallet front end: polling, classification and routing

    A shallow embedding of the client-side logic of the reference wallet
    (web pages [FundsPullPreApprovals.tsx], [Home.tsx], the two
    [TotalBalance] components and the mobile [UserProvider] context),
    together with the properties its specification states about it.

    Conventions.
    - A JavaScript [number] holding a Unix timestamp or a time value is an
      integer [Z]; a [number] holding an amount or a rate is a binary64
      [float]; a JavaScript [string] is a [string].
    - [undefined] is [None].
    - An [async] function is split at each [await] of a backend request
      into the part that runs up to the suspension and the continuation
      that runs when the awaited promise settles; the environment may
      unmount the view or fire a timer in between.  An [await] on the
      session store or on the navigation is taken to resume at once. *)

From Stdlib Require Import String ZArith List Bool Lia Permutation Floats.
Import ListNotations.

Local Open Scope string_scope.
Local Open Scope list_scope.
Local Open Scope Z_scope.

(** [a === b] on two strings. *)
Infix "===" := String.eqb (at level 70, no associativity).

(* ===================================================================== *)
(** * Shared interfaces ([interfaces/user])                              *)
(* ===================================================================== *)

(** A payment method, with the fields the components read. *)
Record PaymentMethod : Type := mkPaymentMethod {
  pm_id : Z;
  pm_name : string;
  pm_provider : string
}.

(** The user record.  [paymentMethods] is absent until the mobile context
    attaches the separately fetched list. *)
Record User : Type := mkUser {
  first_name : string;
  last_name : string;
  registration_status : string;
  is_admin : bool;
  paymentMethods : option (list PaymentMethod)
}.

(** Modelled from the spec: the record of [interfaces/transaction], which
    is not among the sources and of which the pages read no field; the
    fields are those the data model of the specification lists. *)
Record Transaction : Type := mkTransaction {
  tx_sender : string;
  tx_receiver : string;
  tx_amount : Z;
  tx_currency : string;
  tx_status : string;
  tx_timestamp : Z
}.

(* ===================================================================== *)
(** * Approval classification ([pages/FundsPullPreApprovals.tsx])        *)
(* ===================================================================== *)

Module Approvals.

(** ** Data *)

(** The fields of [interfaces/approval] that the pages read. *)
Record Scope : Type := mkScope {
  expiration_timestamp : Z            (* seconds since the epoch *)
}.

Record Approval : Type := mkApproval {
  funds_pull_pre_approval_id : string;
  biller_name : string;
  status : string;
  scope : Scope
}.

(** ** JavaScript [Date]

    A [Date] holds a time value: an integral number of milliseconds since
    the epoch, of magnitude at most 8.64e15, or NaN (an invalid date).
    [new Date(v)] applies the standard's TimeClip to [v]. *)

Definition max_time_value : Z := 8640000000000000.

Inductive Date : Type :=
| TimeValue (ms : Z)
| InvalidDate.

Definition TimeClip (v : Z) : Date :=
  if Z.abs v <=? max_time_value then TimeValue v else InvalidDate.

(** [new Date(v)] for a numeric argument. *)
Definition new_Date_of (v : Z) : Date := TimeClip v.

(** [a < b] on two dates: both are converted to numbers, and a comparison
    with NaN is false. *)
Definition Date_lt (a b : Date) : bool :=
  match a, b with
  | TimeValue x, TimeValue y => x <? y
  | _, _ => false
  end.

(** The wall clock: [clock k] is the time value that the [k]-th evaluation
    of [new Date()] during one rendering observes. *)
Definition Clock : Type := nat -> Z.

(** ** The classification loop *)

Inductive Bucket : Type := New | Active | History.

Definition Bucket_eqb (x y : Bucket) : bool :=
  match x, y with
  | New, New | Active, Active | History, History => true
  | _, _ => false
  end.

(** The three arrays of the component body, and the number of clock
    readings taken so far. *)
Record LoopState : Type := mkLoopState {
  newApprovals : list Approval;
  activeApprovals : list Approval;
  historyApprovals : list Approval;
  reads : nat
}.

Definition initial : LoopState := mkLoopState [] [] [] 0.

(** [xs.push(approval)] on the array of bucket [b]. *)
Definition push (b : Bucket) (approval : Approval) (st : LoopState) : LoopState :=
  match b with
  | New => mkLoopState (newApprovals st ++ [approval]) (activeApprovals st)
                       (historyApprovals st) (reads st)
  | Active => mkLoopState (newApprovals st) (activeApprovals st ++ [approval])
                          (historyApprovals st) (reads st)
  | History => mkLoopState (newApprovals st) (activeApprovals st)
                           (historyApprovals st ++ [approval]) (reads st)
  end.

(** [new Date()]: reads the clock. *)
Definition new_Date_now (clock : Clock) (st : LoopState) : Date * LoopState :=
  (TimeValue (clock (reads st)),
   mkLoopState (newApprovals st) (activeApprovals st) (historyApprovals st)
               (S (reads st))).

(** The body of [for (const approval of approvals)]. *)
Definition loop_body (clock : Clock) (st : LoopState) (approval : Approval)
  : LoopState :=
  if status approval === "pending" then
    push New approval st
  else if status approval === "valid" then
    let expiration := new_Date_of (expiration_timestamp (scope approval) * 1000) in
    let (now, st') := new_Date_now clock st in
    if Date_lt expiration now then
      push History approval st'
    else
      push Active approval st'
  else
    push History approval st.

Definition classify_from (clock : Clock) (st : LoopState)
  (approvals : list Approval) : LoopState :=
  fold_left (loop_body clock) approvals st.

Definition classify (clock : Clock) (approvals : list Approval) : LoopState :=
  classify_from clock initial approvals.

(** ** Positions and labels *)

(** The bucket that one iteration selects when the clock reads [now]. *)
Definition bucket_at (now : Z) (approval : Approval) : Bucket :=
  if status approval === "pending" then New
  else if status approval === "valid" then
    if Date_lt (new_Date_of (expiration_timestamp (scope approval) * 1000))
               (TimeValue now)
    then History else Active
  else History.

(** Whether an iteration on [approval] reads the clock. *)
Definition reads_clock (approval : Approval) : bool :=
  negb (status approval === "pending") && (status approval === "valid").

(** The label of every position of the input, the loop having taken [k]
    clock readings before its first element. *)
Fixpoint labels (clock : Clock) (k : nat) (approvals : list Approval)
  : list Bucket :=
  match approvals with
  | [] => []
  | a :: rest =>
      bucket_at (clock k) a
        :: labels clock (if reads_clock a then S k else k) rest
  end.

(** The elements of [xs] at the positions labelled [b], in input order. *)
Definition pick {A : Type} (b : Bucket) (ls : list Bucket) (xs : list A)
  : list A :=
  map snd (filter (fun p => Bucket_eqb (fst p) b) (combine ls xs)).

(** ** Properties of the classification *)

Section Classification.

Variable clock : Clock.

(** The loop state after one more clock reading. *)
Definition tick (st : LoopState) : LoopState :=
  snd (new_Date_now clock st).

(** One iteration pushes the approval onto exactly one array, the one
    [bucket_at] names for the reading taken in that iteration. *)
Lemma loop_body_push (st : LoopState) (a : Approval) :
  loop_body clock st a
  = push (bucket_at (clock (reads st)) a) a
         (if reads_clock a then tick st else st).
Proof.
  unfold loop_body, bucket_at, reads_clock, tick.
  destruct (status a === "pending"); [reflexivity|].
  destruct (status a === "valid"); [|reflexivity].
  cbn [negb andb new_Date_now snd].
  destruct (Date_lt _ _); reflexivity.
Qed.

Lemma classify_from_app (st : LoopState) (l1 l2 : list Approval) :
  classify_from clock st (l1 ++ l2)
  = classify_from clock (classify_from clock st l1) l2.
Proof. unfold classify_from. apply fold_left_app. Qed.

Lemma pick_cons {A : Type} (b c : Bucket) (ls : list Bucket) (x : A) (xs : list A) :
  pick b (c :: ls) (x :: xs)
  = if Bucket_eqb c b then x :: pick b ls xs else pick b ls xs.
Proof. unfold pick. cbn. destruct (Bucket_eqb c b); reflexivity. Qed.

Lemma labels_length (k : nat) (l : list Approval) :
  length (labels clock k l) = length l.
Proof.
  revert k. induction l as [|a l IH]; intro k; cbn; [reflexivity|].
  now rewrite IH.
Qed.

(** The loop computes, in each array, the input's elements at the positions
    carrying that array's label, appended to what the array held. *)
Lemma classify_from_pick (l : list Approval) : forall st : LoopState,
  let ls := labels clock (reads st) l in
  let st' := classify_from clock st l in
  newApprovals st' = newApprovals st ++ pick New ls l
  /\ activeApprovals st' = activeApprovals st ++ pick Active ls l
  /\ historyApprovals st' = historyApprovals st ++ pick History ls l.
Proof.
  induction l as [|a l IH]; intro st; cbn zeta.
  - cbn. now rewrite !app_nil_r.
  - change (classify_from clock st (a :: l))
      with (classify_from clock (loop_body clock st a) l).
    specialize (IH (loop_body clock st a)). cbn zeta in IH.
    destruct IH as (Hn & Ha & Hh).
    rewrite Hn, Ha, Hh. clear Hn Ha Hh.
    cbn [labels]. rewrite !pick_cons, loop_body_push.
    assert (Hr : reads (push (bucket_at (clock (reads st)) a) a
                         (if reads_clock a then tick st else st))
                 = if reads_clock a then S (reads st) else reads st).
    { destruct (bucket_at _ a), (reads_clock a); reflexivity. }
    rewrite Hr.
    destruct (bucket_at (clock (reads st)) a), (reads_clock a);
      cbn; rewrite <- ?app_assoc; auto.
Qed.

(** The three selections of a labelling are a rearrangement of the list. *)
Lemma pick_permutation {A : Type} (ls : list Bucket) : forall xs : list A,
  length ls = length xs ->
  Permutation (pick New ls xs ++ pick Active ls xs ++ pick History ls xs) xs.
Proof.
  induction ls as [|c ls IH]; intros [|x xs] Hlen; try discriminate.
  - constructor.
  - injection Hlen as Hlen. specialize (IH xs Hlen).
    rewrite !pick_cons. destruct c; cbn [Bucket_eqb].
    + cbn. now constructor.
    + symmetry. apply (Permutation_cons_app (pick New ls xs)
                         (pick Active ls xs ++ pick History ls xs)).
      now symmetry.
    + symmetry. rewrite app_assoc.
      apply (Permutation_cons_app (pick New ls xs ++ pick Active ls xs)
               (pick History ls xs)).
      rewrite <- app_assoc. now symmetry.
Qed.

Lemma pick_In {A : Type} (b : Bucket) (ls : list Bucket) : forall (xs : list A) (x : A),
  In x (pick b ls xs) -> In x xs.
Proof.
  induction ls as [|c ls IH]; intros [|y xs] x; try (cbn; tauto).
  rewrite pick_cons. destruct (Bucket_eqb c b); cbn; intuition eauto.
Qed.

(** Two different labels select no common element of a duplicate-free list. *)
Lemma pick_disjoint {A : Type} (b c : Bucket) (ls : list Bucket) :
  forall (xs : list A) (x : A),
  NoDup xs -> Bucket_eqb b c = false ->
  In x (pick b ls xs) -> ~ In x (pick c ls xs).
Proof.
  induction ls as [|d ls IH]; intros [|y xs] x Hnd Hbc; try (cbn; tauto).
  inversion Hnd as [|? ? Hy Hnd']; subst.
  rewrite !pick_cons.
  destruct (Bucket_eqb d b) eqn:Hdb, (Bucket_eqb d c) eqn:Hdc.
  - destruct b, c, d; discriminate.
  - intros [<-|Hx] Hc; [apply Hy; eapply pick_In; eauto | eapply IH; eauto].
  - intros Hx [<-|Hc]; [apply Hy; eapply pick_In; eauto | eapply IH; eauto].
  - eauto.
Qed.

End Classification.

(** ** The partition *)

(** Under a clock that does not advance during the loop, each array is a
    filter of the input. *)
Lemma labels_const (now : Z) (l : list Approval) : forall k : nat,
  labels (fun _ => now) k l = map (bucket_at now) l.
Proof.
  induction l as [|a l IH]; intro k; cbn; [reflexivity|].
  now rewrite IH.
Qed.

Lemma pick_map {A : Type} (f : A -> Bucket) (b : Bucket) (xs : list A) :
  pick b (map f xs) xs = filter (fun x => Bucket_eqb (f x) b) xs.
Proof.
  induction xs as [|x xs IH]; [reflexivity|].
  cbn [map]. rewrite pick_cons. cbn [filter].
  destruct (Bucket_eqb (f x) b); now rewrite IH.
Qed.

Lemma classify_const (now : Z) (l : list Approval) (b : Bucket) :
  let st := classify (fun _ => now) l in
  match b with
  | New => newApprovals st
  | Active => activeApprovals st
  | History => historyApprovals st
  end = filter (fun a => Bucket_eqb (bucket_at now a) b) l.
Proof.
  cbn zeta.
  destruct (classify_from_pick (fun _ => now) l initial) as (Hn & Ha & Hh).
  cbn in Hn, Ha, Hh. fold (classify (fun _ => now) l) in Hn, Ha, Hh.
  rewrite labels_const in Hn, Ha, Hh.
  destruct b; rewrite <- pick_map; assumption.
Qed.

(** C1. For every list of approvals (and every behaviour of the wall clock
    during the loop), the classification is a total, disjoint and
    order-preserving partition: there is one label per position of the
    input, and each of the three arrays is exactly the input's elements at
    the positions carrying its label, in input order.  Hence every
    occurrence lands in exactly one array, and the three arrays together
    are a rearrangement of the input.  Under a clock that stands still
    during the loop, moreover, no approval is a member of two arrays. *)
Theorem classification_is_partition (clock : Clock) (approvals : list Approval) :
  let st := classify clock approvals in
  (exists ls : list Bucket,
      length ls = length approvals
      /\ newApprovals st = pick New ls approvals
      /\ activeApprovals st = pick Active ls approvals
      /\ historyApprovals st = pick History ls approvals)
  /\ Permutation
       (newApprovals st ++ activeApprovals st ++ historyApprovals st)
       approvals
  /\ (length (newApprovals st) + length (activeApprovals st)
      + length (historyApprovals st) = length approvals)%nat
  /\ (forall (now : Z) (a : Approval),
      let st' := classify (fun _ => now) approvals in
      (In a (newApprovals st') ->
       ~ In a (activeApprovals st') /\ ~ In a (historyApprovals st'))
      /\ (In a (activeApprovals st') -> ~ In a (historyApprovals st'))).
Proof.
  cbn zeta.
  destruct (classify_from_pick clock approvals initial) as (Hn & Ha & Hh).
  cbn in Hn, Ha, Hh. fold (classify clock approvals) in Hn, Ha, Hh.
  assert (Hperm : Permutation
            (newApprovals (classify clock approvals)
             ++ activeApprovals (classify clock approvals)
             ++ historyApprovals (classify clock approvals)) approvals).
  { rewrite Hn, Ha, Hh. apply pick_permutation, labels_length. }
  split; [|split; [|split]].
  - exists (labels clock 0 approvals).
    rewrite labels_length. auto.
  - exact Hperm.
  - apply Permutation_length in Hperm.
    rewrite !length_app in Hperm. lia.
  - intros now a.
    rewrite (classify_const now approvals New),
            (classify_const now approvals Active),
            (classify_const now approvals History).
    rewrite !filter_In.
    destruct (bucket_at now a); cbn; intuition discriminate.
Qed.

(** When no approval occurs twice in the input, no approval is a member of
    two arrays, whatever the clock does. *)
Lemma classification_disjoint (clock : Clock) (approvals : list Approval) (a : Approval) :
  NoDup approvals ->
  let st := classify clock approvals in
  (In a (newApprovals st) -> ~ In a (activeApprovals st) /\ ~ In a (historyApprovals st))
  /\ (In a (activeApprovals st) -> ~ In a (historyApprovals st)).
Proof.
  intros Hnd. cbn zeta.
  destruct (classify_from_pick clock approvals initial) as (Hn & Ha & Hh).
  cbn in Hn, Ha, Hh. fold (classify clock approvals) in Hn, Ha, Hh.
  rewrite Hn, Ha, Hh.
  split; [intro Hin; split|intro Hin].
  - exact (pick_disjoint New Active _ _ _ Hnd eq_refl Hin).
  - exact (pick_disjoint New History _ _ _ Hnd eq_refl Hin).
  - exact (pick_disjoint Active History _ _ _ Hnd eq_refl Hin).
Qed.

(** ** The rule applied by one iteration *)

Lemma bucket_at_pending (now : Z) (a : Approval) :
  status a = "pending" -> bucket_at now a = New.
Proof. unfold bucket_at. now intros ->. Qed.

Lemma bucket_at_other (now : Z) (a : Approval) :
  status a <> "pending" -> status a <> "valid" -> bucket_at now a = History.
Proof.
  unfold bucket_at. intros Hp Hv.
  apply String.eqb_neq in Hp, Hv. now rewrite Hp, Hv.
Qed.

Lemma bucket_at_valid (now : Z) (a : Approval) :
  status a = "valid" ->
  bucket_at now a
  = if Date_lt (new_Date_of (expiration_timestamp (scope a) * 1000))
               (TimeValue now)
    then History else Active.
Proof. unfold bucket_at. now intros ->. Qed.

(** A representable expiry strictly before the reading is expired. *)
Lemma Date_lt_past (now expiry : Z) :
  Z.abs expiry <= max_time_value -> expiry < now ->
  Date_lt (new_Date_of expiry) (TimeValue now) = true.
Proof.
  intros Hr Hlt. unfold new_Date_of, TimeClip.
  apply Z.leb_le in Hr. rewrite Hr. cbn. now apply Z.ltb_lt.
Qed.

(** An expiry at or after the reading is not expired, representable or not. *)
Lemma Date_lt_not_past (now expiry : Z) :
  now <= expiry ->
  Date_lt (new_Date_of expiry) (TimeValue now) = false.
Proof.
  intros Hle. unfold new_Date_of, TimeClip.
  destruct (Z.abs expiry <=? max_time_value); [|reflexivity].
  cbn. now apply Z.ltb_ge.
Qed.

Lemma reads_clock_valid (a : Approval) :
  status a = "valid" -> reads_clock a = true.
Proof. unfold reads_clock. now intros ->. Qed.

Lemma reads_clock_pending (a : Approval) :
  status a = "pending" -> reads_clock a = false.
Proof. unfold reads_clock. now intros ->. Qed.

Lemma reads_clock_other (a : Approval) :
  status a <> "valid" -> reads_clock a = false.
Proof.
  unfold reads_clock. intros Hv. apply String.eqb_neq in Hv.
  rewrite Hv. apply andb_false_r.
Qed.

(** An approval whose expiry lies before the earliest representable date. *)
Definition far_past_approval : Approval :=
  mkApproval "fppa-1" "biller" "valid" (mkScope (-8640000000001)).

(** A clock standing at 2023-11-14T22:13:20Z. *)
Definition clock_2023 : Clock := fun _ => 1700000000000.

(** C2, as stated, fails: a "valid" approval whose expiration timestamp is
    strictly in the past, but so far that [new Date] cannot represent it,
    yields an invalid date; the comparison with [now] is then false and the
    approval is pushed onto the active array, not the history array. *)
Lemma unrepresentable_expiry_is_active :
  status far_past_approval = "valid"
  /\ expiration_timestamp (scope far_past_approval) * 1000 < clock_2023 0%nat
  /\ historyApprovals (classify clock_2023 [far_past_approval]) = []
  /\ activeApprovals (classify clock_2023 [far_past_approval]) = [far_past_approval].
Proof. repeat split. Qed.

(** C2, amended. One iteration of the loop, in any loop state and under
    any clock, with [now] the reading it takes: a "pending" approval is
    pushed onto the new array; a "valid" approval whose expiry is a
    representable date strictly before [now] is pushed onto the history
    array (the active array is left as it was); a "valid" approval whose
    expiry is after [now] is pushed onto the active array; an approval of
    any other status is pushed onto the history array.  For a whole list
    classified under a clock standing at [now], an approval of the list
    that is "valid" with a representable expiry before [now] is a member of
    the history array and not of the active array. *)
Theorem classification_rule (clock : Clock) (st : LoopState) (a : Approval) :
  let now := clock (reads st) in
  let expiry := expiration_timestamp (scope a) * 1000 in
  (status a = "pending" -> loop_body clock st a = push New a st)
  /\ (status a = "valid" -> Z.abs expiry <= max_time_value -> expiry < now ->
      loop_body clock st a = push History a (tick clock st)
      /\ activeApprovals (loop_body clock st a) = activeApprovals st)
  /\ (status a = "valid" -> now < expiry ->
      loop_body clock st a = push Active a (tick clock st))
  /\ (status a <> "pending" -> status a <> "valid" ->
      loop_body clock st a = push History a st)
  /\ (forall (t : Z) (l : list Approval),
      In a l -> status a = "valid" ->
      Z.abs expiry <= max_time_value -> expiry < t ->
      In a (historyApprovals (classify (fun _ => t) l))
      /\ ~ In a (activeApprovals (classify (fun _ => t) l))).
Proof.
  cbn zeta. repeat apply conj.
  - intro Hs. rewrite loop_body_push.
    now rewrite (bucket_at_pending _ _ Hs), (reads_clock_pending _ Hs).
  - intros Hs Hr Hlt. rewrite loop_body_push.
    rewrite (bucket_at_valid _ _ Hs), (reads_clock_valid _ Hs).
    rewrite (Date_lt_past _ _ Hr Hlt). split; reflexivity.
  - intros Hs Hlt. rewrite loop_body_push.
    rewrite (bucket_at_valid _ _ Hs), (reads_clock_valid _ Hs).
    rewrite Date_lt_not_past by lia. reflexivity.
  - intros Hp Hv. rewrite loop_body_push.
    now rewrite (bucket_at_other _ _ Hp Hv), (reads_clock_other _ Hv).
  - intros t l Hin Hs Hr Hlt.
    rewrite (classify_const t l History), (classify_const t l Active).
    rewrite !filter_In, (bucket_at_valid _ _ Hs), (Date_lt_past _ _ Hr Hlt).
    cbn. split; [auto | intros [_ H]; discriminate].
Qed.

(** An approval that expired on 2020-09-13, read in November 2023. *)
Definition expired_approval : Approval :=
  mkApproval "fppa-2" "biller" "valid" (mkScope 1600000000).

Lemma classification_rule_witness :
  loop_body clock_2023 initial expired_approval
  = push History expired_approval (tick clock_2023 initial)
  /\ activeApprovals (loop_body clock_2023 initial expired_approval) = [].
Proof.
  apply (proj1 (proj2 (classification_rule clock_2023 initial expired_approval))).
  - reflexivity.
  - vm_compute. discriminate.
  - reflexivity.
Defined.

(** C10. The expiry comparison is strict: a "valid" approval whose
    expiration, in milliseconds, equals the clock reading of its iteration
    is pushed onto the active array, and the history array is left as it
    was. *)
Theorem expiry_at_now_is_active (clock : Clock) (st : LoopState) (a : Approval) :
  status a = "valid" ->
  expiration_timestamp (scope a) * 1000 = clock (reads st) ->
  loop_body clock st a = push Active a (tick clock st)
  /\ activeApprovals (loop_body clock st a) = activeApprovals st ++ [a]
  /\ historyApprovals (loop_body clock st a) = historyApprovals st.
Proof.
  intros Hs Heq. rewrite loop_body_push.
  rewrite (bucket_at_valid _ _ Hs), (reads_clock_valid _ Hs).
  rewrite Date_lt_not_past by lia. repeat split.
Qed.

(** An approval that expires at the very instant [clock_2023] shows. *)
Definition expiring_now_approval : Approval :=
  mkApproval "fppa-3" "biller" "valid" (mkScope 1700000000).

Lemma expiry_at_now_is_active_witness :
  activeApprovals (classify clock_2023 [expiring_now_approval])
  = [expiring_now_approval]
  /\ historyApprovals (classify clock_2023 [expiring_now_approval]) = [].
Proof.
  pose proof (expiry_at_now_is_active clock_2023 initial expiring_now_approval
                eq_refl eq_refl) as (_ & Ha & Hh).
  split; [exact Ha | exact Hh].
Defined.

End Approvals.

(* ===================================================================== *)
(** * Polling feeds                                                      *)
(* ===================================================================== *)

Module Polling.

(** ** Promises, errors and effects *)

(** What a [catch] clause can receive: an instance of [BackendError], which
    carries an HTTP status and a message, or anything else. *)
Inductive Thrown : Type :=
| BackendError (httpStatus : Z) (message : string)
| OtherError (message : string).

(** [httpStatus.UNAUTHORIZED] of http-status-codes. *)
Definition UNAUTHORIZED : Z := 401.

(** How an awaited promise settles. *)
Inductive Settled (T : Type) : Type :=
| Fulfilled (v : T)
| Rejected (e : Thrown).

Arguments Fulfilled {T} v.
Arguments Rejected {T} e.

(** The calls a feed makes on its collaborators, [T] being the type of the
    state it publishes. *)
Inductive Effect (T : Type) : Type :=
| BackendCall (method : string)
| SetState (v : T)
| SetTimeout (ms : Z)
| ConsoleError (e : Thrown)
| RemoveAccessToken
| SetStackRoot (name : string).

Arguments BackendCall {T} method.
Arguments SetState {T} v.
Arguments SetTimeout {T} ms.
Arguments ConsoleError {T} e.
Arguments RemoveAccessToken {T}.
Arguments SetStackRoot {T} name.

Definition is_call {T : Type} (e : Effect T) : bool :=
  match e with BackendCall _ => true | _ => false end.

Definition is_publish {T : Type} (e : Effect T) : bool :=
  match e with SetState _ => true | _ => false end.



(** The number of effects of a trace that satisfy [p]. *)
Definition count {T : Type} (p : Effect T -> bool) (out : list (Effect T)) : nat :=
  length (filter p out).

(** ** Feeds guarded by a liveness flag

    One mounted instance of a page that owns a feed: the flag captured by
    the closures of its first rendering, the state hook, the timers that
    [setTimeout] has armed and that have not fired, and the invocations of
    the fetch function that are suspended at their [await]. *)
Record Feed (T : Type) : Type := mkFeed {
  refresh : bool;
  value : T;
  timers : nat;
  awaiting : nat
}.

Arguments mkFeed {T}.
Arguments refresh {T}.
Arguments value {T}.
Arguments timers {T}.
Arguments awaiting {T}.

(** A piece of handler code: it changes the instance and calls
    collaborators. *)
Definition Action (T : Type) : Type := Feed T -> Feed T * list (Effect T).

Definition skip {T : Type} : Action T := fun s => (s, []).

Definition seq {T : Type} (a b : Action T) : Action T :=
  fun s => let (s1, o1) := a s in let (s2, o2) := b s1 in (s2, o1 ++ o2).

Notation "a ;; b" := (seq a b) (at level 61, right associativity).

(** The state hook's setter.  [value] is the value last passed to it: once
    the page is unmounted React discards the update, and the field then
    records the call only. *)
Definition setState {T : Type} (v : T) : Action T :=
  fun s => (mkFeed (refresh s) v (timers s) (awaiting s), [SetState v]).

(** [setTimeout(fetch, ms)]. *)
Definition setTimeout {T : Type} (ms : Z) : Action T :=
  fun s => (mkFeed (refresh s) (value s) (S (timers s)) (awaiting s), [SetTimeout ms]).

(** [console.error(e)]. *)
Definition console_error {T : Type} (e : Thrown) : Action T :=
  fun s => (s, [ConsoleError e]).

(** [await new BackendClient().method(...)]: the request goes out and the
    invocation is suspended until it settles. *)
Definition await_backend {T : Type} (method : string) : Action T :=
  fun s => (mkFeed (refresh s) (value s) (timers s) (S (awaiting s)),
            [BackendCall method]).

(** The fetch function of a feed, split at its [await]. *)
Record Handlers (T : Type) : Type := mkHandlers {
  call : Action T;
  resume : Settled T -> Action T
}.

Arguments mkHandlers {T}.
Arguments call {T}.
Arguments resume {T}.

(** *** [fetchApprovals] of [FundsPullPreApprovals.tsx] *)

Definition REFRESH_APPROVALS_INTERVAL : Z := 3000.

Definition fetchApprovals_call {T : Type} : Action T :=
  fun s =>
    if refresh s then
      await_backend "getAllFundsPullPreApprovals" s
    else
      setTimeout REFRESH_APPROVALS_INTERVAL s.

Definition fetchApprovals_resume {T : Type} (r : Settled T) : Action T :=
  match r with
  | Fulfilled v => setState v ;; setTimeout REFRESH_APPROVALS_INTERVAL
  | Rejected e => console_error e
  end.

Definition fetchApprovals {T : Type} : Handlers T :=
  mkHandlers fetchApprovals_call fetchApprovals_resume.

(** *** [fetchTransactions] of [Home.tsx] *)

Definition REFRESH_TRANSACTIONS_INTERVAL : Z := 3000.

Definition fetchTransactions_call {T : Type} : Action T :=
  fun s =>
    if refresh s then
      await_backend "getTransactions" s
    else
      skip s.

Definition fetchTransactions_resume {T : Type} (r : Settled T) : Action T :=
  match r with
  | Fulfilled v => setState v ;; setTimeout REFRESH_TRANSACTIONS_INTERVAL
  | Rejected e => console_error e
  end.

Definition fetchTransactions {T : Type} : Handlers T :=
  mkHandlers fetchTransactions_call fetchTransactions_resume.

(** *** The event loop *)

(** What the environment does to a mounted instance. *)
Inductive Event (T : Type) : Type :=
| Unmount                       (* the effect's cleanup function runs *)
| TimerFires                    (* an armed timer calls the fetch function *)
| Settles (r : Settled T).      (* the awaited request settles *)

Arguments Unmount {T}.
Arguments TimerFires {T}.
Arguments Settles {T} r.

(** The cleanup function: [refresh... = false]. *)
Definition cleanup {T : Type} : Action T :=
  fun s => (mkFeed false (value s) (timers s) (awaiting s), []).

(** One event; [None] when the event cannot occur in [s]. *)
Definition step {T : Type} (F : Handlers T) (s : Feed T) (ev : Event T)
  : option (Feed T * list (Effect T)) :=
  match ev with
  | Unmount => Some (cleanup s)
  | TimerFires =>
      match timers s with
      | O => None
      | S n => Some (call F (mkFeed (refresh s) (value s) n (awaiting s)))
      end
  | Settles r =>
      match awaiting s with
      | O => None
      | S n => Some (resume F r (mkFeed (refresh s) (value s) (timers s) n))
      end
  end.

(** A sequence of events, with the effects it causes, oldest first. *)
Fixpoint run {T : Type} (F : Handlers T) (s : Feed T) (evs : list (Event T))
  : option (Feed T * list (Effect T)) :=
  match evs with
  | [] => Some (s, [])
  | ev :: rest =>
      match step F s ev with
      | None => None
      | Some (s1, o1) =>
          match run F s1 rest with
          | None => None
          | Some (s2, o2) => Some (s2, o1 ++ o2)
          end
      end
  end.

(** Mounting: the flag is [true], the hook holds its initial value, and the
    effect callback calls the fetch function once. *)
Definition mount {T : Type} (F : Handlers T) (init : T)
  : Feed T * list (Effect T) :=
  call F (mkFeed true init 0 0).

(** ** The user feed ([UserProvider] of the mobile context) *)

Definition REFRESH_TIMEOUT : Z := 5000.

(** What [Promise.all([getUser(), getPaymentMethods()])] has received. *)
Record PromiseAll : Type := mkPromiseAll {
  newUser : option User;
  newPaymentMethods : option (list PaymentMethod)
}.

(** The [await] at which a running invocation of [loadUser] is suspended. *)
Inductive Suspension : Type :=
| AtGetAccessToken                 (* await SessionStorage.getAccessToken() *)
| AtPromiseAll (p : PromiseAll).   (* await Promise.all([...]) *)

(** One mounted [UserProvider], with the session store and the navigation
    stack it talks to. *)
Record Provider : Type := mkProvider {
  user : option User;              (* useState<User>() *)
  timeoutRef : option nat;         (* timeoutRef.current *)
  armed : list nat;                (* handles of the timers not yet fired *)
  next_handle : nat;               (* the handle the next setTimeout returns *)
  token : option string;           (* SessionStorage's access token *)
  stackRoot : string;              (* the navigation stack's root component *)
  suspended : option Suspension    (* where the running loadUser waits *)
}.

Definition UAction : Type := Provider -> Provider * list (Effect User).

Definition useq (a b : UAction) : UAction :=
  fun s => let (s1, o1) := a s in let (s2, o2) := b s1 in (s2, o1 ++ o2).

Notation "a ;;; b" := (useq a b) (at level 61, right associativity).

(** Whether [token] is truthy: it is a non-empty string. *)
Definition truthy (t : option string) : bool :=
  match t with
  | None => false
  | Some t => negb (t === "")
  end.

(** [setUser(u)]. *)
Definition setUser (u : User) : UAction :=
  fun s => (mkProvider (Some u) (timeoutRef s) (armed s) (next_handle s)
                       (token s) (stackRoot s) (suspended s),
            [SetState u]).

(** [timeoutRef.current = setTimeout(loadUser, ms)]. *)
Definition setTimeout_ref (ms : Z) : UAction :=
  fun s => (mkProvider (user s) (Some (next_handle s))
                       (next_handle s :: armed s) (S (next_handle s))
                       (token s) (stackRoot s) (suspended s),
            [SetTimeout ms]).

(** [await SessionStorage.removeAccessToken()]. *)
Definition removeAccessToken : UAction :=
  fun s => (mkProvider (user s) (timeoutRef s) (armed s) (next_handle s)
                       None (stackRoot s) (suspended s),
            [RemoveAccessToken]).

(** [await Navigation.setStackRoot(componentId, {component: {name}})]. *)
Definition setStackRoot (name : string) : UAction :=
  fun s => (mkProvider (user s) (timeoutRef s) (armed s) (next_handle s)
                       (token s) name (suspended s),
            [SetStackRoot name]).

Definition uconsole_error (e : Thrown) : UAction :=
  fun s => (s, [ConsoleError e]).

(** [e instanceof BackendError && e.httpStatus === httpStatus.UNAUTHORIZED]. *)
Definition is_unauthorized (e : Thrown) : bool :=
  match e with
  | BackendError st _ => st =? UNAUTHORIZED
  | OtherError _ => false
  end.

(** [newUser.paymentMethods = newPaymentMethods]. *)
Definition attach (u : User) (pms : list PaymentMethod) : User :=
  mkUser (first_name u) (last_name u) (registration_status u) (is_admin u)
         (Some pms).

(** [loadUser] up to its first [await]: it asks the session store for the
    access token and is suspended until the store answers.  (The read is a
    call on the store, not on the backend, and is not recorded among the
    effects.) *)
Definition loadUser_call : UAction :=
  fun s =>
    (mkProvider (user s) (timeoutRef s) (armed s) (next_handle s)
                (token s) (stackRoot s) (Some AtGetAccessToken),
     []).

(** [loadUser] from the point where the session store has answered, up to
    [await Promise.all(...)]: without a token it returns; with one it
    issues both requests and is suspended again. *)
Definition loadUser_token : UAction :=
  fun s =>
    if negb (truthy (token s)) then (s, [])
    else
      (mkProvider (user s) (timeoutRef s) (armed s) (next_handle s)
                  (token s) (stackRoot s)
                  (Some (AtPromiseAll (mkPromiseAll None None))),
       [BackendCall "getUser"; BackendCall "getPaymentMethods"]).

(** [loadUser] from the point where [Promise.all] settles. *)
Definition loadUser_resume (r : Settled (User * list PaymentMethod)) : UAction :=
  match r with
  | Fulfilled (u, pms) =>
      setUser (attach u pms) ;;; setTimeout_ref REFRESH_TIMEOUT
  | Rejected e =>
      if is_unauthorized e then
        removeAccessToken ;;; setStackRoot "SignIn"
      else
        uconsole_error e
  end.

Inductive UEvent : Type :=
| UUnmount                                           (* the cleanup function *)
| UTimerFires (h : nat)                              (* timer [h] calls loadUser *)
| GetAccessTokenSettles                              (* the session store answers *)
| GetAccessTokenFails (e : Thrown)                   (* the session store throws *)
| GetUserSettles (r : Settled User)
| GetPaymentMethodsSettles (r : Settled (list PaymentMethod)).

Definition remove_handle (h : nat) (l : list nat) : list nat :=
  filter (fun k => negb (Nat.eqb k h)) l.

(** The invocation is no longer waiting. *)
Definition wake (s : Provider) : Provider :=
  mkProvider (user s) (timeoutRef s) (armed s) (next_handle s)
             (token s) (stackRoot s) None.

Definition wait (p : PromiseAll) (s : Provider) : Provider :=
  mkProvider (user s) (timeoutRef s) (armed s) (next_handle s)
             (token s) (stackRoot s) (Some (AtPromiseAll p)).

(** The cleanup function: [clearTimeout(timeoutRef.current!)]. *)
Definition ucleanup : UAction :=
  fun s =>
    (mkProvider (user s) (timeoutRef s)
                (match timeoutRef s with
                 | Some h => remove_handle h (armed s)
                 | None => armed s
                 end)
                (next_handle s) (token s) (stackRoot s) (suspended s),
     []).

(** One event.  The session store answers with the token it holds at that
    moment; when it throws instead, the [await] throws outside the [try]
    block and [loadUser] ends there.  [Promise.all] rejects as soon as one
    request rejects and fulfils when both have; a request that settles
    when no invocation is running is ignored.  [None]: the event cannot
    occur in [s] (a timer that is not armed, an answer of the store nobody
    waits for, a request settling before it is issued or twice, a timer
    firing while an invocation is suspended: see [armed_or_suspended]). *)
Definition ustep (s : Provider) (ev : UEvent)
  : option (Provider * list (Effect User)) :=
  match ev with
  | UUnmount => Some (ucleanup s)
  | UTimerFires h =>
      if existsb (Nat.eqb h) (armed s) then
        match suspended s with
        | Some _ => None
        | None =>
            Some (loadUser_call
                    (mkProvider (user s) (timeoutRef s) (remove_handle h (armed s))
                                (next_handle s) (token s) (stackRoot s) None))
        end
      else None
  | GetAccessTokenSettles =>
      match suspended s with
      | Some AtGetAccessToken => Some (loadUser_token (wake s))
      | _ => None
      end
  | GetAccessTokenFails _ =>
      match suspended s with
      | Some AtGetAccessToken => Some (wake s, [])
      | _ => None
      end
  | GetUserSettles r =>
      match suspended s with
      | None => Some (s, [])
      | Some AtGetAccessToken => None
      | Some (AtPromiseAll (mkPromiseAll (Some _) _)) => None
      | Some (AtPromiseAll (mkPromiseAll None got)) =>
          match r with
          | Rejected e => Some (loadUser_resume (Rejected e) (wake s))
          | Fulfilled u =>
              match got with
              | Some pms => Some (loadUser_resume (Fulfilled (u, pms)) (wake s))
              | None => Some (wait (mkPromiseAll (Some u) None) s, [])
              end
          end
      end
  | GetPaymentMethodsSettles r =>
      match suspended s with
      | None => Some (s, [])
      | Some AtGetAccessToken => None
      | Some (AtPromiseAll (mkPromiseAll _ (Some _))) => None
      | Some (AtPromiseAll (mkPromiseAll got None)) =>
          match r with
          | Rejected e => Some (loadUser_resume (Rejected e) (wake s))
          | Fulfilled pms =>
              match got with
              | Some u => Some (loadUser_resume (Fulfilled (u, pms)) (wake s))
              | None => Some (wait (mkPromiseAll None (Some pms)) s, [])
              end
          end
      end
  end.

Fixpoint urun (s : Provider) (evs : list UEvent)
  : option (Provider * list (Effect User)) :=
  match evs with
  | [] => Some (s, [])
  | ev :: rest =>
      match ustep s ev with
      | None => None
      | Some (s1, o1) =>
          match urun s1 rest with
          | None => None
          | Some (s2, o2) => Some (s2, o1 ++ o2)
          end
      end
  end.

(** Mounting a provider over the given session token and stack root: the
    effect callback calls [loadUser]. *)
Definition umount (tok : option string) (root : string)
  : Provider * list (Effect User) :=
  loadUser_call (mkProvider None None [] 0 tok root None).

(** ** Properties of the flag-guarded feeds *)

Lemma count_app {T : Type} (p : Effect T -> bool) (a b : list (Effect T)) :
  count p (a ++ b) = (count p a + count p b)%nat.
Proof. unfold count. now rewrite filter_app, length_app. Qed.

Lemma run_cons {T : Type} (F : Handlers T) (s : Feed T) (ev : Event T)
  (evs : list (Event T)) (s2 : Feed T) (o : list (Effect T)) :
  run F s (ev :: evs) = Some (s2, o) ->
  exists s1 o1 o2,
    step F s ev = Some (s1, o1) /\ run F s1 evs = Some (s2, o2) /\ o = o1 ++ o2.
Proof.
  cbn. destruct (step F s ev) as [[s1 o1]|] eqn:Hstep; [|discriminate].
  destruct (run F s1 evs) as [[s2' o2]|] eqn:Hrun; [|discriminate].
  intros [= <- <-]. exists s1, o1, o2. auto.
Qed.

(** At most one timer is armed or one request in flight, never both. *)
Definition single_flight {T : Type} (s : Feed T) : Prop :=
  (timers s + awaiting s <= 1)%nat.

(** The two feeds of the web pages. *)
Inductive web_feed {T : Type} : Handlers T -> Prop :=
| web_approvals : web_feed fetchApprovals
| web_transactions : web_feed fetchTransactions.

Lemma step_single_flight {T : Type} (F : Handlers T) (s s' : Feed T)
  (ev : Event T) (o : list (Effect T)) :
  web_feed F -> single_flight s -> step F s ev = Some (s', o) -> single_flight s'.
Proof.
  unfold single_flight. intros HF Hs.
  destruct HF, ev as [| |[v|e]]; cbn;
    destruct s as [r v0 t a]; cbn in *.
  all: try (intros [= <- <-]; cbn; lia).
  all: try (destruct t; [discriminate|]; destruct r; cbn;
            intros [= <- <-]; cbn; lia).
  all: destruct a; [discriminate|]; cbn; intros [= <- <-]; cbn; lia.
Qed.

Lemma run_single_flight {T : Type} (F : Handlers T) (evs : list (Event T)) :
  web_feed F ->
  forall (s s' : Feed T) (o : list (Effect T)),
  single_flight s -> run F s evs = Some (s', o) -> single_flight s'.
Proof.
  intro HF. induction evs as [|ev evs IH]; intros s s' o Hs Hrun.
  - cbn in Hrun. now injection Hrun as <- <-.
  - apply run_cons in Hrun as (s1 & o1 & o2 & Hstep & Hrun & ->).
    eapply IH; [|exact Hrun]. eapply step_single_flight; eauto.
Qed.

Lemma mount_single_flight {T : Type} (F : Handlers T) (init : T) :
  web_feed F -> single_flight (fst (mount F init)).
Proof. intros []; cbn; unfold single_flight; cbn; lia. Qed.




(** ** Properties of the user feed *)

Lemma urun_cons (s : Provider) (ev : UEvent) (evs : list UEvent)
  (s2 : Provider) (o : list (Effect User)) :
  urun s (ev :: evs) = Some (s2, o) ->
  exists s1 o1 o2,
    ustep s ev = Some (s1, o1) /\ urun s1 evs = Some (s2, o2) /\ o = o1 ++ o2.
Proof.
  cbn. destruct (ustep s ev) as [[s1 o1]|] eqn:Hstep; [|discriminate].
  destruct (urun s1 evs) as [[s2' o2]|] eqn:Hrun; [|discriminate].
  intros [= <- <-]. exists s1, o1, o2. auto.
Qed.










(** No timer armed and no invocation of [loadUser] running: the feed is at
    rest. *)
Definition idle (s : Provider) : Prop :=
  armed s = [] /\ suspended s = None.


(** ** Unmounting while a fetch is in flight *)

Definition sample_transactions : list Transaction :=
  [mkTransaction "alice" "bob" 1000000 "XUS" "completed" 1700000000].

Definition sample_approvals : list Approvals.Approval :=
  [Approvals.expired_approval].

Definition sample_user : User := mkUser "Ada" "Lovelace" "Approved" false None.

Definition sample_payment_methods : list PaymentMethod :=
  [mkPaymentMethod 7 "Visa" "CreditCard"].





(** ** A fetch that fails *)


Definition network_error : Thrown := OtherError "Network Error".





(** ** The user refresh *)

(** C5. The user refresh is all-or-nothing.  With a token in the session
    store, [loadUser] issues both requests together, before either
    settles.  In whichever order the two then settle, if either is rejected
    the published user is the one from before the refresh and [setUser] is
    not called (so a user profile that arrived is not applied when the
    payment methods fail); if both are fulfilled, [setUser] is called once,
    with one merged record: the fields of the profile that arrived, and the
    payment methods that arrived as its [paymentMethods]. *)
Theorem user_refresh_all_or_nothing (s0 : Provider) (ru : Settled User)
  (rp : Settled (list PaymentMethod)) (evs : list UEvent) :
  truthy (token s0) = true ->
  evs = [GetUserSettles ru; GetPaymentMethodsSettles rp]
  \/ evs = [GetPaymentMethodsSettles rp; GetUserSettles ru] ->
  exists (s1 s' : Provider) (out : list (Effect User)),
    snd (loadUser_call s0) = []
    /\ urun (fst (loadUser_call s0)) [GetAccessTokenSettles]
       = Some (s1, [BackendCall "getUser"; BackendCall "getPaymentMethods"])
    /\ user s1 = user s0
    /\ urun s1 evs = Some (s', out)
    /\ match ru, rp with
       | Fulfilled u, Fulfilled pms =>
           let merged := mkUser (first_name u) (last_name u)
                                (registration_status u) (is_admin u)
                                (Some pms) in
           user s' = Some merged
           /\ out = [SetState merged; SetTimeout REFRESH_TIMEOUT]
       | _, _ =>
           user s' = user s0
           /\ filter is_publish out = []
       end.
Proof.
  intros Htok Hevs.
  exists (mkProvider (user s0) (timeoutRef s0) (armed s0) (next_handle s0)
                     (token s0) (stackRoot s0)
                     (Some (AtPromiseAll (mkPromiseAll None None)))).
  assert (Hread : urun (fst (loadUser_call s0)) [GetAccessTokenSettles]
            = Some (mkProvider (user s0) (timeoutRef s0) (armed s0)
                               (next_handle s0) (token s0) (stackRoot s0)
                               (Some (AtPromiseAll (mkPromiseAll None None))),
                    [BackendCall "getUser"; BackendCall "getPaymentMethods"])).
  { cbn. unfold loadUser_token. cbn. now rewrite Htok. }
  destruct Hevs as [-> | ->]; destruct ru as [u|eu], rp as [pms|ep]; cbn;
    try destruct (is_unauthorized eu); try destruct (is_unauthorized ep);
    cbn; eexists; eexists;
    (split; [reflexivity|]); (split; [exact Hread|]);
    (split; [reflexivity|]); (split; [reflexivity|]); cbn; auto.
Qed.

(** The profile arrives, then the payment methods fail: the published user
    stays as it was. *)
Lemma user_refresh_all_or_nothing_witness :
  let s0 := mkProvider (Some sample_user) None [] 0 (Some "token") "Home" None in
  let evs := [GetUserSettles (Fulfilled (mkUser "Ada" "Byron" "Verified" false None));
              GetPaymentMethodsSettles (Rejected network_error)] in
  exists (s1 s' : Provider) (out : list (Effect User)),
    snd (loadUser_call s0) = []
    /\ urun (fst (loadUser_call s0)) [GetAccessTokenSettles]
       = Some (s1, [BackendCall "getUser"; BackendCall "getPaymentMethods"])
    /\ user s1 = user s0
    /\ urun s1 evs = Some (s', out)
    /\ user s' = Some sample_user
    /\ filter is_publish out = [].
Proof.
  cbn zeta.
  exact (user_refresh_all_or_nothing
           (mkProvider (Some sample_user) None [] 0 (Some "token") "Home" None)
           (Fulfilled (mkUser "Ada" "Byron" "Verified" false None))
           (Rejected network_error) _ eq_refl (or_introl eq_refl)).
Defined.

(** ** Authorization failures *)





End Polling.

(* ===================================================================== *)
(** * The home page ([pages/Home.tsx])                                   *)
(* ===================================================================== *)

Module HomePage.

(** Modelled from the spec: the members of the string enum
    [RegistrationStatus] of [interfaces/user], which is not among the
    sources; the spec names the statuses "Registered", "Verified" and
    "Approved", the last of which [Home.tsx] itself compares against. *)
Module RegistrationStatus.
Definition Registered : string := "Registered".
Definition Verified : string := "Verified".
End RegistrationStatus.

(** [xs.includes(x)] on an array of strings. *)
Definition includes (xs : list string) (x : string) : bool :=
  existsb (fun y => y === x) xs.

(** [!!s] for a string that may be undefined. *)
Definition truthy (s : option string) : bool :=
  match s with
  | None => false
  | Some s => negb (s === "")
  end.

(** [user && [Registered, Verified].includes(user.registration_status)]. *)
Definition userVerificationRequired (user : option User) : bool :=
  match user with
  | None => false
  | Some u =>
      includes [RegistrationStatus.Registered; RegistrationStatus.Verified]
               (registration_status u)
  end.

(** What [pageContent] can hold; [Wallet u] is the markup of the main
    wallet view (name, total balance, actions, balances, transactions). *)
Inductive PageContent : Type :=
| WalletLoader
| VerifyingMessage
| AdminHome
| Wallet (u : User).

Definition pageContent (user : option User) : PageContent :=
  match user with
  | None => WalletLoader
  | Some u =>
      if negb (registration_status u === "Approved") then
        VerifyingMessage
      else if is_admin u then
        AdminHome
      else
        Wallet u
  end.

(** The children of the fragment that [Home] returns, in document order;
    [cond && <X />] contributes [<X />] when [cond] is truthy. *)
Inductive Element : Type :=
| Redirect (to : string)
| Container (content : PageContent).

Definition Home (user : option User) (activeCurrency : option string)
  : list Element :=
  (if userVerificationRequired user then [Redirect "/verify"] else [])
  ++ (if truthy activeCurrency then
        match activeCurrency with
        | Some c => [Redirect (String.append "/wallet/" c)]
        | None => []
        end
      else [])
  ++ [Container (pageContent user)].

(** The targets of the redirects among rendered elements, in order. *)
Fixpoint redirects (els : list Element) : list string :=
  match els with
  | [] => []
  | Redirect to :: rest => to :: redirects rest
  | Container _ :: rest => redirects rest
  end.

(** The content of the container that is rendered. *)
Fixpoint shown (els : list Element) : option PageContent :=
  match els with
  | [] => None
  | Container c :: _ => Some c
  | Redirect _ :: rest => shown rest
  end.

Definition registered_user : User := mkUser "Ada" "Lovelace" "Registered" false None.


Definition approved_admin : User := mkUser "Root" "Admin" "Approved" true None.

(** The redirects rendered, rule by rule. *)
Lemma redirects_Home (user : option User) (activeCurrency : option string) :
  redirects (Home user activeCurrency)
  = (if userVerificationRequired user then ["/verify"] else [])
    ++ (match activeCurrency with
        | Some c => if truthy (Some c) then [String.append "/wallet/" c] else []
        | None => []
        end).
Proof.
  unfold Home.
  destruct (userVerificationRequired user), activeCurrency as [c|]; cbn;
    try destruct (negb (c === "")); reflexivity.
Qed.

(** The container is always rendered, with [pageContent]. *)
Lemma shown_Home (user : option User) (activeCurrency : option string) :
  shown (Home user activeCurrency) = Some (pageContent user).
Proof.
  unfold Home.
  destruct (userVerificationRequired user), (truthy activeCurrency),
    activeCurrency; reflexivity.
Qed.

(** ** The redirects over the life of the page

    One mounted [Home]: the user it reads from the settings context and
    the currency its state hook holds. *)
Record Page : Type := mkPage {
  settings_user : option User;        (* settings.user *)
  activeCurrency : option string      (* useState<LibraCurrency | undefined>() *)
}.

(** The first two children of the fragment, by position: the target of the
    [Redirect] rendered there, if one is. *)
Definition verify_slot (p : Page) : option string :=
  if userVerificationRequired (settings_user p) then Some "/verify" else None.

Definition currency_slot (p : Page) : option string :=
  match activeCurrency p with
  | Some c => if truthy (Some c) then Some (String.append "/wallet/" c) else None
  | None => None
  end.

(** The two positions hold the redirects that [Home] renders. *)
Lemma slots_Home (p : Page) :
  redirects (Home (settings_user p) (activeCurrency p))
  = (match verify_slot p with Some to => [to] | None => [] end)
    ++ (match currency_slot p with Some to => [to] | None => [] end).
Proof.
  rewrite redirects_Home. unfold verify_slot, currency_slot.
  destruct (userVerificationRequired (settings_user p)),
    (activeCurrency p) as [c|]; cbn; try destruct (negb (c === ""));
    reflexivity.
Qed.










(** ** First match wins *)














(** C9, as stated, fails: an approved administrator is shown the
    administration page, not the main wallet view. *)
Lemma approved_admin_sees_admin_home :
  registration_status approved_admin = "Approved"
  /\ shown (Home (Some approved_admin) None) = Some AdminHome.
Proof. repeat split. Qed.

(** C9, amended.  For every fetched user: the main wallet view is shown if
    and only if the registration status is "Approved" and the user is not
    an administrator; an approved administrator is shown the administration
    page; a user with any other status is shown the verifying message; and
    a user with status Registered or Verified is, besides, redirected to
    the verification flow. *)
Theorem home_page_content (u : User) (activeCurrency : option string) :
  let page := shown (Home (Some u) activeCurrency) in
  (page = Some (Wallet u)
   <-> registration_status u = "Approved" /\ is_admin u = false)
  /\ (registration_status u = "Approved" -> is_admin u = true ->
      page = Some AdminHome)
  /\ (registration_status u <> "Approved" -> page = Some VerifyingMessage)
  /\ (registration_status u = "Registered" \/ registration_status u = "Verified" ->
      page = Some VerifyingMessage
      /\ In "/verify" (redirects (Home (Some u) activeCurrency))).
Proof.
  cbn zeta.
  rewrite shown_Home. unfold pageContent.
  destruct (registration_status u === "Approved") eqn:Hst.
  - apply String.eqb_eq in Hst. cbn [negb].
    split; [|split; [|split]].
    + destruct (is_admin u); split;
        [discriminate | intros [_ Hf]; discriminate | auto | reflexivity].
    + intros _ ->. reflexivity.
    + intro Hne. contradiction.
    + rewrite Hst. intros [Hr|Hv]; discriminate.
  - apply String.eqb_neq in Hst. cbn [negb].
    split; [|split; [|split]].
    + split; [discriminate | intros [Hap _]; contradiction].
    + intro Hap. contradiction.
    + reflexivity.
    + intros Hrv. split; [reflexivity|].
      rewrite redirects_Home. apply in_or_app. left.
      unfold userVerificationRequired, includes. cbn.
      destruct Hrv as [-> | ->]; cbn; now left.
Qed.

Lemma home_page_content_witness :
  shown (Home (Some registered_user) None) = Some VerifyingMessage
  /\ In "/verify" (redirects (Home (Some registered_user) None)).
Proof.
  exact (proj2 (proj2 (proj2 (home_page_content registered_user None)))
           (or_introl eq_refl)).
Defined.

End HomePage.

(* ===================================================================== *)
(** * Total balance (the web and mobile [TotalBalance] components)       *)
(* ===================================================================== *)

Module Balance.

Local Open Scope float_scope.

(** The own properties of a plain JavaScript object used as a map from
    string keys. *)
Definition Dict (V : Type) : Type := list (string * V).

Fixpoint get_own {V : Type} (m : Dict V) (k : string) : option V :=
  match m with
  | [] => None
  | (k', v) :: rest => if k' === k then Some v else get_own rest k
  end.

(** The names of the properties that every plain object inherits from
    [Object.prototype]. *)
Definition Object_prototype : list string :=
  ["constructor"; "__defineGetter__"; "__defineSetter__"; "hasOwnProperty";
   "__lookupGetter__"; "__lookupSetter__"; "isPrototypeOf";
   "propertyIsEnumerable"; "toString"; "valueOf"; "__proto__";
   "toLocaleString"].

(** What [m[k]] evaluates to: the value of the own property [k]; for a name
    of [Object.prototype] that [m] does not define itself, the inherited
    built-in (a function, or [Object.prototype] itself for "__proto__");
    and [undefined] otherwise. *)
Inductive Property (V : Type) : Type :=
| Own (v : V)
| Inherited
| Undefined.

Arguments Own {V} v.
Arguments Inherited {V}.
Arguments Undefined {V}.

Definition get {V : Type} (m : Dict V) (k : string) : Property V :=
  match get_own m k with
  | Some v => Own v
  | None => if existsb (fun name => name === k) Object_prototype then Inherited
            else Undefined
  end.

(** [m[k]] when the key itself may be [undefined]: the key "undefined" is
    looked up. *)
Definition get_opt {V : Type} (m : Dict V) (k : option string) : Property V :=
  match k with
  | Some k => get m k
  | None => get m "undefined"
  end.

(** [interfaces/account]: one entry of [balances]. *)
Record LibraCurrencyBalance : Type := mkBalance {
  currency : string;
  balance : float               (* an amount in minor units *)
}.

(** Rates of one currency, keyed by fiat currency code. *)
Definition Rate : Type := Dict float.

(** An entry of [settings.currencies]. *)
Record CurrencySettings : Type := mkCurrencySettings {
  sign : string;
  rates : Rate
}.

Record Account : Type := mkAccount {
  balances : list LibraCurrencyBalance
}.

Record Settings : Type := mkSettings {
  account : option Account;
  currencies : Dict CurrencySettings;
  defaultFiatCurrencyCode : option string
}.

(** A rate read from an object of rates, as a factor of a product:
    [undefined] converts to NaN, and so does an inherited built-in, which
    is a function or an object. *)
Definition to_number (x : Property float) : float :=
  match x with
  | Own v => v
  | Inherited => nan
  | Undefined => nan
  end.

(** An evaluation that may throw a [TypeError]. *)
Definition Throws (A : Type) : Type := option A.

(** [xs.reduce(f, init)], for a callback that may throw. *)
Fixpoint reduce {A B : Type} (f : B -> A -> Throws B) (xs : list A) (acc : B)
  : Throws B :=
  match xs with
  | [] => Some acc
  | x :: rest =>
      match f acc x with
      | None => None
      | Some acc' => reduce f rest acc'
      end
  end.

Section Components.

(** [libraToFloat] is imported from [utils/amount-precision], which is not
    among the sources: the components are embedded over any such
    function. *)
Variable libraToFloat : float -> float.

(** The built-in objects are the JavaScript engine's.  [builtin c k] stands
    for the evaluation of [Object.prototype[c][k]] as a factor of a
    product, for a name [c] of [Object.prototype]: the number that the
    property [k] of that built-in converts to, or the [TypeError] that
    reading it throws. *)
Variable builtin : string -> string -> Throws float.

(** ** The mobile component *)

(** The callback of the reduction.  [rates[currency]] is an object of
    rates when the currency is an own key; a built-in when the currency is
    a name of [Object.prototype]; otherwise it is [undefined], and reading
    a property of [undefined] throws. *)
Definition mobile_callback (rates : Dict Rate) (fiatCurrencyCode : string)
  (totalBalance : float) (currencyBalance : LibraCurrencyBalance)
  : Throws float :=
  match get rates (currency currencyBalance) with
  | Undefined => None
  | Own r =>
      let exchangeRate := to_number (get r fiatCurrencyCode) in
      Some (totalBalance + libraToFloat (balance currencyBalance) * exchangeRate)
  | Inherited =>
      match builtin (currency currencyBalance) fiatCurrencyCode with
      | None => None
      | Some exchangeRate =>
          Some (totalBalance
                + libraToFloat (balance currencyBalance) * exchangeRate)
      end
  end.

Definition mobile_totalFiatBalance (balances : list LibraCurrencyBalance)
  (fiatCurrencyCode : string) (rates : Dict Rate) : Throws float :=
  reduce (mobile_callback rates fiatCurrencyCode) balances 0.

(** ** The web component *)

(** The callback of the reduction.  [settings.currencies[currency]] has
    the property [rates] only when the currency is an own key: no built-in
    has a property of that name, so for a name of [Object.prototype], as
    for an unknown currency, [rates] is read from a value without it and
    indexing the result throws. *)
Definition web_callback (settings : Settings) (totalBalance : float)
  (currencyBalance : LibraCurrencyBalance) : Throws float :=
  match get (currencies settings) (currency currencyBalance) with
  | Undefined => None
  | Inherited => None
  | Own c =>
      let exchangeRate :=
        to_number (get_opt (rates c) (defaultFiatCurrencyCode settings)) in
      Some (totalBalance + libraToFloat (balance currencyBalance) * exchangeRate)
  end.

(** [None]: the component returns [null] because there is no account yet;
    [Some None]: the reduction throws. *)
Definition web_totalFiatBalance (settings : Settings) : option (Throws float) :=
  match account settings with
  | None => None
  | Some acc => Some (reduce (web_callback settings) (balances acc) 0)
  end.

End Components.

(** Modelled from the spec: [libraToFloat] of [utils/amount-precision],
    which is not among the sources.  The spec gives amounts a 6-decimal
    minor-unit precision: an amount in minor units is converted to major
    units by dividing by 10^6. *)
Definition libraToFloat (amount : float) : float := amount / 1000000.

(** ** The example of the specification *)

Definition example_balances : list LibraCurrencyBalance :=
  [mkBalance "XUS" 500000].

Definition example_rates : Dict Rate := [("XUS", [("USD", 1)])].

Definition example_settings : Settings :=
  mkSettings (Some (mkAccount example_balances))
             [("XUS", mkCurrencySettings "XUS" [("USD", 1)])]
             (Some "USD").

(** Whatever the conversion and the built-ins, both components compute for
    the example [0 + libraToFloat(500000) * 1]. *)
Lemma example_total (f : float -> float)
  (builtin : string -> string -> Throws float) :
  mobile_totalFiatBalance f builtin example_balances "USD" example_rates
  = Some (0 + f 500000 * 1)
  /\ web_totalFiatBalance f example_settings = Some (Some (0 + f 500000 * 1)).
Proof. split; reflexivity. Qed.

(** C8, as stated in the specification's headline, fails: for balances
    [(XUS, 500000)] and a rate XUS->USD of 1.00 the total is not 5. *)
Lemma example_total_is_not_five :
  exists total : float,
    (forall builtin : string -> string -> Throws float,
       mobile_totalFiatBalance libraToFloat builtin example_balances "USD"
                               example_rates
       = Some total)
    /\ web_totalFiatBalance libraToFloat example_settings = Some (Some total)
    /\ PrimFloat.eqb total 5 = false.
Proof. exists 0.5. vm_compute. repeat split. Qed.

(** C8, amended.  For balances [(XUS, 500000)], a rate XUS->USD of 1.00 and
    6-decimal minor units, both components compute a total fiat balance of
    0.5 (500000 minor units are 0.5 major units, worth 0.50 USD), and each
    of the three floating-point operations involved is exact. *)
Theorem example_total_is_one_half
  (builtin : string -> string -> Throws float) :
  mobile_totalFiatBalance libraToFloat builtin example_balances "USD"
                          example_rates
  = Some 0.5
  /\ web_totalFiatBalance libraToFloat example_settings = Some (Some 0.5)
  /\ libraToFloat 500000 = 0.5
  /\ 0.5 * 1 = 0.5
  /\ 0 + 0.5 = 0.5.
Proof. vm_compute. repeat split. Qed.

End Balance.

(* ===================================================================== *)
(** * The approvals page as rendered ([pages/FundsPullPreApprovals.tsx]) *)
(* ===================================================================== *)

Module ApprovalsPage.

Import Approvals.

(** A child of the page's container.  [ListSection] is a section holding a
    [FundsPullPreApprovalsList] with its heading and props; a boolean prop
    that is not written is [undefined], hence false. *)
Inductive Block : Type :=
| ListSection (heading : string) (approvals : list Approval)
              (disableApproveRejectButtons disableRevokeButton : bool)
| EmptyNotice.

(** [!!xs.length]. *)
Definition nonempty {A : Type} (xs : list A) : bool :=
  match xs with
  | [] => false
  | _ :: _ => true
  end.

(** The container's children, from the fetched list and the three arrays
    the loop filled. *)
Definition container (approvals : list Approval) (st : LoopState) : list Block :=
  (if nonempty (newApprovals st)
   then [ListSection "New Requests" (newApprovals st) false true] else [])
  ++ (if nonempty (activeApprovals st)
      then [ListSection "Active Requests" (activeApprovals st) true false] else [])
  ++ (if nonempty (historyApprovals st)
      then [ListSection "History" (historyApprovals st) true true] else [])
  ++ (if negb (nonempty approvals) then [EmptyNotice] else []).

(** One rendering of the page with [approvals] in its state hook. *)
Definition FundsPullPreApprovals (clock : Clock) (approvals : list Approval)
  : list Block :=
  container approvals (classify clock approvals).

(** The approvals listed on the page, section after section. *)
Fixpoint listed (blocks : list Block) : list Approval :=
  match blocks with
  | [] => []
  | ListSection _ l _ _ :: rest => l ++ listed rest
  | EmptyNotice :: rest => listed rest
  end.

Definition is_notice (b : Block) : bool :=
  match b with EmptyNotice => true | ListSection _ _ _ _ => false end.

Definition is_pending (a : Approval) : bool := status a === "pending".

Definition is_valid (a : Approval) : bool := status a === "valid".

(** ** What the loop keeps true of the three arrays *)

Definition statuses_sorted (st : LoopState) : Prop :=
  Forall (fun a => status a = "pending") (newApprovals st)
  /\ Forall (fun a => status a = "valid") (activeApprovals st)
  /\ Forall (fun a => status a <> "pending") (historyApprovals st).

Lemma loop_body_statuses (clock : Clock) (st : LoopState) (a : Approval) :
  statuses_sorted st -> statuses_sorted (loop_body clock st a).
Proof.
  intros (Hn & Ha & Hh). rewrite loop_body_push.
  unfold bucket_at, reads_clock.
  destruct (status a === "pending") eqn:Hp.
  - apply String.eqb_eq in Hp. cbn. repeat split; auto.
    apply Forall_app. split; auto.
  - apply String.eqb_neq in Hp.
    destruct (status a === "valid") eqn:Hv; cbn.
    + apply String.eqb_eq in Hv.
      destruct (Date_lt _ _); cbn; repeat split; auto;
        apply Forall_app; split; auto.
    + repeat split; auto. apply Forall_app. split; auto.
Qed.

Lemma classify_from_statuses (clock : Clock) (l : list Approval) :
  forall st, statuses_sorted st -> statuses_sorted (classify_from clock st l).
Proof.
  induction l as [|a l IH]; intros st Hst; [exact Hst|].
  apply (IH (loop_body clock st a)). now apply loop_body_statuses.
Qed.

Lemma classify_statuses (clock : Clock) (l : list Approval) :
  statuses_sorted (classify clock l).
Proof.
  apply classify_from_statuses. repeat split; constructor.
Qed.

(** The arrays together rearrange the input (from the positional
    description of the loop). *)
Lemma classify_permutation (clock : Clock) (l : list Approval) :
  Permutation
    (newApprovals (classify clock l) ++ activeApprovals (classify clock l)
     ++ historyApprovals (classify clock l)) l.
Proof.
  destruct (classify_from_pick clock l initial) as (Hn & Ha & Hh).
  cbn in Hn, Ha, Hh. fold (classify clock l) in Hn, Ha, Hh.
  rewrite Hn, Ha, Hh. apply pick_permutation, labels_length.
Qed.

Lemma listed_container (approvals : list Approval) (st : LoopState) :
  listed (container approvals st)
  = newApprovals st ++ activeApprovals st ++ historyApprovals st.
Proof.
  unfold container.
  destruct (newApprovals st), (activeApprovals st), (historyApprovals st),
    approvals; cbn; rewrite ?app_nil_r; reflexivity.
Qed.

(** X1. The page is never blank and never contradicts itself: with an empty
    list it shows the notice alone; with a non-empty list it shows no
    notice and at least one section; no section is empty; and the sections
    together list every fetched approval exactly as often as it was
    fetched. *)
Theorem page_shows_notice_or_sections (clock : Clock) (approvals : list Approval) :
  let page := FundsPullPreApprovals clock approvals in
  (approvals = [] -> page = [EmptyNotice])
  /\ (approvals <> [] -> existsb is_notice page = false /\ page <> [])
  /\ (forall h l dar dr, In (ListSection h l dar dr) page -> l <> [])
  /\ Permutation (listed page) approvals.
Proof.
  cbn zeta. unfold FundsPullPreApprovals.
  pose proof (classify_permutation clock approvals) as Hperm.
  assert (Hlisted : Permutation
            (listed (container approvals (classify clock approvals))) approvals)
    by (rewrite listed_container; exact Hperm).
  split; [|split; [|split]].
  - intros ->. reflexivity.
  - intro Hne. destruct approvals as [|a rest]; [contradiction|].
    split.
    + unfold container. cbn [nonempty negb].
      destruct (nonempty (newApprovals _)), (nonempty (activeApprovals _)),
        (nonempty (historyApprovals _)); reflexivity.
    + intro Hnil. rewrite Hnil in Hlisted. cbn in Hlisted.
      apply Permutation_nil in Hlisted. discriminate.
  - intros h l dar dr Hin. unfold container in Hin.
    repeat (apply in_app_or in Hin; destruct Hin as [Hin|Hin]).
    + destruct (newApprovals _) eqn:E; cbn in Hin; [contradiction|].
      destruct Hin as [[= _ <- _ _]|[]]. discriminate.
    + destruct (activeApprovals _) eqn:E; cbn in Hin; [contradiction|].
      destruct Hin as [[= _ <- _ _]|[]]. discriminate.
    + destruct (historyApprovals _) eqn:E; cbn in Hin; [contradiction|].
      destruct Hin as [[= _ <- _ _]|[]]. discriminate.
    + destruct (negb _); cbn in Hin; [destruct Hin as [Hin|[]]; discriminate
                                     |contradiction].
  - exact Hlisted.
Qed.

Lemma page_shows_notice_or_sections_witness :
  existsb is_notice (FundsPullPreApprovals clock_2023 [expired_approval]) = false
  /\ FundsPullPreApprovals clock_2023 [expired_approval] <> [].
Proof.
  apply (proj1 (proj2 (page_shows_notice_or_sections clock_2023 [expired_approval]))).
  discriminate.
Defined.

(** ** Which buttons an approval is offered *)

Lemma In_container (approvals : list Approval) (st : LoopState)
  (h : string) (l : list Approval) (dar dr : bool) :
  In (ListSection h l dar dr) (container approvals st) ->
  (l = newApprovals st /\ dar = false /\ dr = true)
  \/ (l = activeApprovals st /\ dar = true /\ dr = false)
  \/ (l = historyApprovals st /\ dar = true /\ dr = true).
Proof.
  unfold container. intro Hin.
  repeat (apply in_app_or in Hin; destruct Hin as [Hin|Hin]).
  - destruct (nonempty _); cbn in Hin; [|contradiction].
    destruct Hin as [[= _ <- <- <-]|[]]. auto.
  - destruct (nonempty _); cbn in Hin; [|contradiction].
    destruct Hin as [[= _ <- <- <-]|[]]. auto.
  - destruct (nonempty _); cbn in Hin; [|contradiction].
    destruct Hin as [[= _ <- <- <-]|[]]. auto.
  - destruct (negb _); cbn in Hin; [destruct Hin as [Hin|[]]; discriminate
                                   |contradiction].
Qed.

(** X2. Whatever the clock does: the approve and reject buttons are enabled for
    an approval on the page exactly when its status is "pending", the
    revoke button only when its status is "valid", and every pending
    approval that was fetched is listed with approve and reject enabled. *)
Theorem buttons_follow_status (clock : Clock) (approvals : list Approval) :
  let page := FundsPullPreApprovals clock approvals in
  (forall h l dar dr a,
      In (ListSection h l dar dr) page -> In a l ->
      (dar = false <-> status a = "pending")
      /\ (dr = false -> status a = "valid")
      /\ In a approvals)
  /\ (forall a,
      In a approvals -> status a = "pending" ->
      exists l, In (ListSection "New Requests" l false true) page /\ In a l).
Proof.
  cbn zeta. unfold FundsPullPreApprovals.
  pose proof (classify_statuses clock approvals) as (Hn & Ha & Hh).
  pose proof (classify_permutation clock approvals) as Hperm.
  rewrite Forall_forall in Hn, Ha, Hh.
  split.
  - intros h l dar dr a Hin Ha_l.
    apply In_container in Hin as [(-> & -> & ->)|[(-> & -> & ->)|(-> & -> & ->)]].
    + split; [|split].
      * split; [intros _; now apply Hn | reflexivity].
      * discriminate.
      * eapply Permutation_in; [exact Hperm|]. apply in_or_app. now left.
    + split; [|split].
      * split; [discriminate|]. intro Hp. rewrite (Ha a Ha_l) in Hp. discriminate.
      * intros _. now apply Ha.
      * eapply Permutation_in; [exact Hperm|].
        apply in_or_app. right. apply in_or_app. now left.
    + split; [|split].
      * split; [discriminate|]. intro Hp. now apply Hh in Ha_l.
      * discriminate.
      * eapply Permutation_in; [exact Hperm|].
        apply in_or_app. right. apply in_or_app. now right.
  - intros a Hin Hp.
    apply (Permutation_in _ (Permutation_sym Hperm)) in Hin.
    apply in_app_or in Hin as [Hin|Hin]; [|apply in_app_or in Hin as [Hin|Hin]].
    + exists (newApprovals (classify clock approvals)). split; [|exact Hin].
      unfold container.
      destruct (newApprovals (classify clock approvals)); [destruct Hin|].
      cbn. now left.
    + apply Ha in Hin. rewrite Hin in Hp. discriminate.
    + apply Hh in Hin. contradiction.
Qed.

(** A pending request read in November 2023. *)
Definition pending_approval : Approval :=
  mkApproval "fppa-4" "biller" "pending" (mkScope 1800000000).

Lemma buttons_follow_status_witness :
  exists l,
    In (ListSection "New Requests" l false true)
       (FundsPullPreApprovals clock_2023 [expired_approval; pending_approval])
    /\ In pending_approval l.
Proof.
  apply (proj2 (buttons_follow_status clock_2023
                  [expired_approval; pending_approval]) pending_approval).
  - right. left. reflexivity.
  - reflexivity.
Defined.

(** ** What does not depend on the clock, and what moves with it *)

Lemma classify_from_pending (clock : Clock) (l : list Approval) :
  forall st,
  newApprovals (classify_from clock st l) = newApprovals st ++ filter is_pending l
  /\ reads (classify_from clock st l)
     = (reads st + length (filter is_valid l))%nat.
Proof.
  induction l as [|a l IH]; intro st.
  - cbn. now rewrite app_nil_r, Nat.add_0_r.
  - change (classify_from clock st (a :: l))
      with (classify_from clock (loop_body clock st a) l).
    destruct (IH (loop_body clock st a)) as (Hn & Hr).
    rewrite Hn, Hr, loop_body_push.
    unfold bucket_at, reads_clock, is_pending, is_valid. cbn [filter].
    destruct (status a === "pending") eqn:Hp.
    + apply String.eqb_eq in Hp. rewrite Hp. cbn.
      rewrite <- app_assoc. auto.
    + destruct (status a === "valid"); cbn.
      * destruct (Date_lt _ _); cbn; split; auto; lia.
      * auto.
Qed.

(** X3. The new array is exactly the pending approvals in the order fetched,
    whatever the clock does, and the clock is read once for each "valid"
    approval and for no other. *)
Theorem pending_ignore_the_clock (clock : Clock) (approvals : list Approval) :
  newApprovals (classify clock approvals) = filter is_pending approvals
  /\ reads (classify clock approvals) = length (filter is_valid approvals).
Proof.
  destruct (classify_from_pending clock approvals initial) as (Hn & Hr).
  split; [exact Hn | exact Hr].
Qed.

Lemma bucket_at_later (t1 t2 : Z) (a : Approval) :
  t1 <= t2 ->
  (bucket_at t1 a = New <-> bucket_at t2 a = New)
  /\ (bucket_at t2 a = Active -> bucket_at t1 a = Active)
  /\ (bucket_at t1 a = History -> bucket_at t2 a = History).
Proof.
  intro Hle. unfold bucket_at.
  destruct (status a === "pending"); [repeat split; auto; discriminate|].
  destruct (status a === "valid"); [|repeat split; auto; discriminate].
  unfold new_Date_of, TimeClip.
  destruct (Z.abs _ <=? max_time_value); cbn;
    [|repeat split; auto; discriminate].
  destruct (_ <? t1) eqn:H1, (_ <? t2) eqn:H2;
    try (exfalso; apply Z.ltb_lt in H1; apply Z.ltb_ge in H2; lia);
    repeat split; intros; try assumption; try discriminate; reflexivity.
Qed.

Lemma filter_filter_implied {A : Type} (p q : A -> bool) (l : list A) :
  (forall x, q x = true -> p x = true) ->
  filter q (filter p l) = filter q l.
Proof.
  intro Himp. induction l as [|x l IH]; [reflexivity|].
  cbn. destruct (p x) eqn:Hp; cbn.
  - now rewrite IH.
  - destruct (q x) eqn:Hq; [|exact IH].
    apply Himp in Hq. congruence.
Qed.

(** X4. Time only expires approvals.  Between two renderings of the same list,
    under clocks standing at [t1] and at a later [t2], the new array is the
    same, the later active array is the earlier one without the approvals
    that expired in between (in the same order), and what was in the
    history array stays there. *)
Theorem time_only_expires (t1 t2 : Z) (approvals : list Approval) :
  t1 <= t2 ->
  let earlier := classify (fun _ => t1) approvals in
  let later := classify (fun _ => t2) approvals in
  newApprovals later = newApprovals earlier
  /\ activeApprovals later
     = filter (fun a => Bucket_eqb (bucket_at t2 a) Active) (activeApprovals earlier)
  /\ (forall a, In a (historyApprovals earlier) -> In a (historyApprovals later)).
Proof.
  intro Hle. cbn zeta.
  rewrite (classify_const t1 approvals New), (classify_const t2 approvals New),
    (classify_const t1 approvals Active), (classify_const t2 approvals Active),
    (classify_const t1 approvals History), (classify_const t2 approvals History).
  split; [|split].
  - apply filter_ext. intro a.
    destruct (bucket_at_later t1 t2 a Hle) as (Hnew & _ & _).
    destruct (bucket_at t1 a) eqn:E1, (bucket_at t2 a) eqn:E2;
      try reflexivity; exfalso;
      solve [ assert (H : New = New) by reflexivity;
              apply Hnew in H; discriminate
            | assert (H : New = New) by reflexivity;
              apply (proj2 Hnew) in H; discriminate ].
  - symmetry. apply filter_filter_implied. intros a Ha.
    destruct (bucket_at_later t1 t2 a Hle) as (_ & Hact & _).
    destruct (bucket_at t2 a); try discriminate.
    now rewrite Hact.
  - intros a. rewrite !filter_In. intros [Hin Hb]. split; [exact Hin|].
    destruct (bucket_at_later t1 t2 a Hle) as (_ & _ & Hhist).
    destruct (bucket_at t1 a); try discriminate.
    now rewrite Hhist.
Qed.

(** An approval expiring on 2023-11-14T22:13:20Z, seen one second before
    and one second after. *)
Lemma time_only_expires_witness :
  let earlier := classify (fun _ => 1699999999000) [expiring_now_approval] in
  let later := classify (fun _ => 1700000001000) [expiring_now_approval] in
  newApprovals later = newApprovals earlier
  /\ activeApprovals later
     = filter (fun a => Bucket_eqb (bucket_at 1700000001000 a) Active)
              (activeApprovals earlier)
  /\ (forall a, In a (historyApprovals earlier) -> In a (historyApprovals later)).
Proof.
  exact (time_only_expires 1699999999000 1700000001000 [expiring_now_approval]
           (proj1 (Z.leb_le 1699999999000 1700000001000) eq_refl)).
Defined.

End ApprovalsPage.

(* ===================================================================== *)
(** * Further properties of the polling feeds                            *)
(* ===================================================================== *)

Module PollingFacts.

Import Polling.

(** ** The two feeds of the web pages *)

(** [console.error] was called. *)
Definition is_logged {T : Type} (e : Effect T) : bool :=
  match e with ConsoleError _ => true | _ => false end.

(** An event that neither unmounts the view nor fails a request. *)
Definition undisturbed {T : Type} (ev : Event T) : bool :=
  match ev with
  | Unmount => false
  | Settles (Rejected _) => false
  | TimerFires | Settles (Fulfilled _) => true
  end.

(** The value the state hook holds after the effects [out], having held
    [v] before. *)
Definition latest {T : Type} (v : T) (out : list (Effect T)) : T :=
  fold_left (fun acc e => match e with SetState w => w | _ => acc end) out v.

Lemma latest_app {T : Type} (v : T) (a b : list (Effect T)) :
  latest v (a ++ b) = latest (latest v a) b.
Proof. unfold latest. apply fold_left_app. Qed.

Lemma step_accounts {T : Type} (F : Handlers T) (s s' : Feed T)
  (ev : Event T) (o : list (Effect T)) :
  web_feed F -> step F s ev = Some (s', o) ->
  (count is_call o + awaiting s
   = count is_publish o + count is_logged o + awaiting s')%nat
  /\ value s' = latest (value s) o.
Proof.
  intros HF.
  destruct HF, ev as [| |[v|e]]; cbn; destruct s as [r v0 t a]; cbn.
  all: try (intros [= <- <-]; cbn; auto).
  all: try (destruct t; [discriminate|]; destruct r; cbn;
            intros [= <- <-]; cbn; split; auto; lia).
  all: destruct a; [discriminate|]; cbn; intros [= <- <-]; cbn; split; auto; lia.
Qed.

Lemma run_accounts {T : Type} (F : Handlers T) (evs : list (Event T)) :
  web_feed F ->
  forall (s s' : Feed T) (o : list (Effect T)),
  run F s evs = Some (s', o) ->
  (count is_call o + awaiting s
   = count is_publish o + count is_logged o + awaiting s')%nat
  /\ value s' = latest (value s) o.
Proof.
  intro HF. induction evs as [|ev evs IH]; intros s s' o Hrun.
  - cbn in Hrun. injection Hrun as <- <-. cbn. auto.
  - apply run_cons in Hrun as (s1 & o1 & o2 & Hstep & Hrun & ->).
    destruct (step_accounts F s s1 ev o1 HF Hstep) as (Hc1 & Hv1).
    destruct (IH s1 s' o2 Hrun) as (Hc2 & Hv2).
    rewrite !count_app, latest_app, <- Hv1. split; [lia|exact Hv2].
Qed.

(** X5. Every request of a feed is accounted for exactly once.  In any run of
    a mounted transactions or approvals feed, the requests issued (that of
    the mount included) are as many as the results published, plus the
    failures logged, plus the request still in flight; and the state hook
    holds the result published last, or its initial value when none was:
    a failure never clears what is shown. *)
Theorem requests_accounted_for (T : Type) (F : Handlers T) (init : T)
  (evs : list (Event T)) (s : Feed T) (o : list (Effect T)) :
  web_feed F ->
  run F (fst (mount F init)) evs = Some (s, o) ->
  (count is_call (snd (mount F init) ++ o)
   = count is_publish o + count is_logged o + awaiting s)%nat
  /\ value s = latest init o.
Proof.
  intros HF Hrun.
  destruct (run_accounts F evs HF _ _ _ Hrun) as (Hc & Hv).
  rewrite count_app. destruct HF; cbn in *; split; auto; lia.
Qed.

Lemma requests_accounted_for_witness :
  let evs := [Settles (Fulfilled sample_transactions); TimerFires;
              Settles (Rejected network_error)] in
  let o := [SetState sample_transactions; SetTimeout 3000;
            BackendCall "getTransactions"; ConsoleError network_error] in
  run fetchTransactions (fst (mount fetchTransactions [])) evs
  = Some (mkFeed true sample_transactions 0 0, o)
  /\ value (mkFeed true sample_transactions 0 0) = latest [] o.
Proof.
  cbn zeta. split; [reflexivity|].
  exact (proj2 (requests_accounted_for _ fetchTransactions []
                  [Settles (Fulfilled sample_transactions); TimerFires;
                   Settles (Rejected network_error)]
                  _ _ web_transactions eq_refl)).
Defined.

Lemma step_undisturbed {T : Type} (F : Handlers T) (s s' : Feed T)
  (ev : Event T) (o : list (Effect T)) :
  web_feed F -> undisturbed ev = true ->
  refresh s = true -> (timers s + awaiting s = 1)%nat ->
  step F s ev = Some (s', o) ->
  refresh s' = true /\ (timers s' + awaiting s' = 1)%nat.
Proof.
  intros HF Hev Hr H1.
  destruct HF, ev as [| |[v|e]]; try discriminate; cbn;
    destruct s as [r v0 t a]; cbn in *; subst r.
  all: try (destruct t; [discriminate|]; cbn;
            intros [= <- <-]; cbn; split; auto; lia).
  all: destruct a; [discriminate|]; cbn; intros [= <- <-]; cbn; split; auto; lia.
Qed.

(** X6. Polling is strictly sequential and, left undisturbed, never stalls.  In
    any run of a mounted transactions or approvals feed at most one timer
    is armed or one request in flight, never both; as long as the view is
    not unmounted and no request fails, exactly one of the two is. *)
Theorem one_timer_or_one_request (T : Type) (F : Handlers T) (init : T)
  (evs : list (Event T)) (s : Feed T) (o : list (Effect T)) :
  web_feed F ->
  run F (fst (mount F init)) evs = Some (s, o) ->
  (timers s + awaiting s <= 1)%nat
  /\ (forallb undisturbed evs = true ->
      refresh s = true /\ (timers s + awaiting s = 1)%nat).
Proof.
  intros HF Hrun. split.
  - exact (run_single_flight F evs HF _ _ _ (mount_single_flight F init HF) Hrun).
  - assert (H0 : refresh (fst (mount F init)) = true
                 /\ (timers (fst (mount F init))
                     + awaiting (fst (mount F init)) = 1)%nat)
      by (destruct HF; cbn; auto).
    revert Hrun H0. generalize (fst (mount F init)). revert s o.
    induction evs as [|ev evs IH]; intros s o s0 Hrun (Hr & H1) Hall.
    + cbn in Hrun. injection Hrun as <- <-. auto.
    + cbn in Hall. apply andb_prop in Hall as (Hev & Hall).
      apply run_cons in Hrun as (s1 & o1 & o2 & Hstep & Hrun & ->).
      apply (IH s o2 s1 Hrun); [|exact Hall].
      eapply step_undisturbed; eauto.
Qed.

Lemma one_timer_or_one_request_witness :
  let evs := [Settles (Fulfilled sample_approvals); TimerFires] in
  forallb undisturbed evs = true
  /\ refresh (mkFeed true sample_approvals 0 1) = true.
Proof.
  cbn zeta. split; [reflexivity|].
  exact (proj1 (proj2 (one_timer_or_one_request _ fetchApprovals []
                         [Settles (Fulfilled sample_approvals); TimerFires]
                         (mkFeed true sample_approvals 0 1) _
                         web_approvals eq_refl) eq_refl)).
Defined.

(** X7. In the approvals feed the timer outlives the view.  Once the cleanup
    function has run, an armed timer that fires issues no request but arms
    itself again: any number of ticks leaves the feed as it was, having
    scheduled as many further ticks. *)
Theorem approvals_timer_outlives_view (T : Type) (s : Feed T) (n : nat) :
  refresh s = false -> timers s <> 0%nat ->
  run fetchApprovals s (repeat TimerFires n)
  = Some (s, repeat (SetTimeout REFRESH_APPROVALS_INTERVAL) n).
Proof.
  intros Hr Ht. induction n as [|n IH]; [reflexivity|].
  cbn [repeat run].
  assert (Hstep : step fetchApprovals s TimerFires
                  = Some (s, [SetTimeout REFRESH_APPROVALS_INTERVAL])).
  { destruct s as [r v t a]. cbn in *. subst r.
    destruct t; [contradiction|]. reflexivity. }
  rewrite Hstep, IH. reflexivity.
Qed.

Lemma approvals_timer_outlives_view_witness :
  run fetchApprovals (mkFeed false sample_approvals 1 0) (repeat TimerFires 3)
  = Some (mkFeed false sample_approvals 1 0,
          [SetTimeout 3000; SetTimeout 3000; SetTimeout 3000]).
Proof.
  apply (approvals_timer_outlives_view _ (mkFeed false sample_approvals 1 0) 3).
  - reflexivity.
  - discriminate.
Defined.

(** ** The user feed *)


(** No token in the session store, no timer armed, and [loadUser] at most
    waiting for the session store. *)
Definition tokenless (s : Provider) : Prop :=
  truthy (token s) = false
  /\ armed s = []
  /\ (suspended s = None \/ suspended s = Some AtGetAccessToken).

Lemma ustep_tokenless (s s' : Provider) (ev : UEvent) (o : list (Effect User)) :
  tokenless s -> ustep s ev = Some (s', o) ->
  o = [] /\ tokenless s' /\ token s' = token s /\ user s' = user s
  /\ (suspended s = None \/ ev = GetAccessTokenSettles -> suspended s' = None).
Proof.
  intros (Htok & Ha & Hs) Hstep. unfold tokenless.
  destruct ev as [|h| |e|r|r]; cbn in Hstep.
  - injection Hstep as <- <-. cbn. rewrite Ha.
    assert (Hrm : match timeoutRef s with
                  | Some h => remove_handle h []
                  | None => []
                  end = []) by now destruct (timeoutRef s).
    rewrite Hrm.
    split; [reflexivity|]. split; [auto|]. split; [reflexivity|].
    split; [reflexivity|]. intros [H|H]; [exact H|discriminate].
  - rewrite Ha in Hstep. discriminate.
  - destruct Hs as [Hs|Hs]; rewrite Hs in Hstep; [discriminate|].
    unfold loadUser_token in Hstep. cbn in Hstep. rewrite Htok in Hstep.
    cbn in Hstep. injection Hstep as <- <-. cbn. auto 10.
  - destruct Hs as [Hs|Hs]; rewrite Hs in Hstep; [discriminate|].
    injection Hstep as <- <-. cbn. auto 10.
  - destruct Hs as [Hs|Hs]; rewrite Hs in Hstep; [|discriminate].
    injection Hstep as <- <-.
    split; [reflexivity|]. split; [auto|]. split; [reflexivity|].
    split; [reflexivity|]. intros _. exact Hs.
  - destruct Hs as [Hs|Hs]; rewrite Hs in Hstep; [|discriminate].
    injection Hstep as <- <-.
    split; [reflexivity|]. split; [auto|]. split; [reflexivity|].
    split; [reflexivity|]. intros _. exact Hs.
Qed.

Lemma urun_tokenless (evs : list UEvent) :
  forall (s s' : Provider) (o : list (Effect User)),
  tokenless s -> urun s evs = Some (s', o) ->
  o = [] /\ tokenless s' /\ token s' = token s /\ user s' = user s
  /\ (suspended s = None \/ In GetAccessTokenSettles evs -> suspended s' = None).
Proof.
  induction evs as [|ev evs IH]; intros s s' o Hs Hrun.
  - cbn in Hrun. injection Hrun as <- <-.
    split; [reflexivity|]. split; [exact Hs|]. split; [reflexivity|].
    split; [reflexivity|]. intros [H|[]]. exact H.
  - apply urun_cons in Hrun as (s1 & o1 & o2 & Hstep & Hrun & ->).
    destruct (ustep_tokenless _ _ _ _ Hs Hstep)
      as (-> & Hs1 & Htok1 & Hu1 & Hnone1).
    destruct (IH s1 s' o2 Hs1 Hrun) as (-> & Hs' & Htok' & Hu' & Hnone').
    split; [reflexivity|]. split; [exact Hs'|].
    split; [congruence|]. split; [congruence|].
    intros [H|[H|H]]; apply Hnone'; auto.
Qed.

(** X8. Without an access token the provider never talks to the backend.
    Mounted over a session store that holds no token, or an empty one, it
    issues no request and arms no timer, and whatever happens afterwards
    has no effect: no user is ever published.  [loadUser] waits for the
    session store and, once the store has answered, the feed is at rest. *)
Theorem no_token_no_polling (tok : option string) (root : string)
  (evs : list UEvent) (s : Provider) (o : list (Effect User)) :
  truthy tok = false ->
  urun (fst (umount tok root)) evs = Some (s, o) ->
  snd (umount tok root) = [] /\ o = [] /\ user s = None
  /\ armed s = []
  /\ (suspended s = None \/ suspended s = Some AtGetAccessToken)
  /\ (In GetAccessTokenSettles evs -> idle s).
Proof.
  intros Htok Hrun.
  assert (H0 : tokenless (fst (umount tok root))).
  { unfold tokenless, umount, loadUser_call. cbn. auto. }
  destruct (urun_tokenless evs _ _ _ H0 Hrun)
    as (-> & (_ & Ha & Hs) & _ & Huser & Hnone).
  cbn in Huser. repeat split; auto.
Qed.

Lemma no_token_no_polling_witness :
  urun (fst (umount (Some "") "Home"))
       [UUnmount; GetAccessTokenSettles; GetUserSettles (Fulfilled sample_user)]
  = Some (mkProvider None None [] 0 (Some "") "Home" None, [])
  /\ user (mkProvider None None [] 0 (Some "") "Home" None) = None.
Proof.
  split; [reflexivity|].
  exact (proj1 (proj2 (proj2
    (no_token_no_polling (Some "") "Home"
       [UUnmount; GetAccessTokenSettles; GetUserSettles (Fulfilled sample_user)]
       _ _ eq_refl eq_refl)))).
Defined.

(** At most one timer, and [timeoutRef] holds it. *)
Definition well_timed (s : Provider) : Prop :=
  match armed s with
  | [] => True
  | [h] => timeoutRef s = Some h /\ suspended s = None
  | _ :: _ :: _ => False
  end.

Lemma remove_handle_same (h : nat) : remove_handle h [h] = [].
Proof. unfold remove_handle. cbn. now rewrite Nat.eqb_refl. Qed.

Lemma loadUser_resume_well_timed (r : Settled (User * list PaymentMethod))
  (s : Provider) :
  armed s = [] -> suspended s = None ->
  well_timed (fst (loadUser_resume r s)).
Proof.
  intros Ha Hs. unfold well_timed.
  destruct r as [[u pms]|e]; cbn.
  - rewrite Ha. auto.
  - destruct (is_unauthorized e); cbn; now rewrite Ha.
Qed.

Lemma ustep_well_timed (s s' : Provider) (ev : UEvent) (o : list (Effect User)) :
  well_timed s -> ustep s ev = Some (s', o) -> well_timed s'.
Proof.
  intros Hwt0. pose proof Hwt0 as Hwt. unfold well_timed in Hwt.
  assert (Hsusp : suspended s <> None -> armed s = []).
  { destruct (armed s) as [|h [|k rest]]; [reflexivity| |contradiction].
    destruct Hwt as (_ & ->). congruence. }
  assert (Hresume : forall r, armed s = [] ->
            Some (loadUser_resume r (wake s)) = Some (s', o) -> well_timed s').
  { intros r Ha [= H]. apply (f_equal fst) in H. cbn [fst] in H. subst s'.
    now apply loadUser_resume_well_timed. }
  destruct ev as [|h| |e|r|r]; unfold ustep.
  - intros [= <- <-]. unfold well_timed. cbn.
    destruct (armed s) as [|h [|k rest]]; [now destruct (timeoutRef s)| |contradiction].
    destruct Hwt as (-> & _). now rewrite remove_handle_same.
  - destruct (existsb (Nat.eqb h) (armed s)) eqn:Hex; [|discriminate].
    destruct (suspended s) eqn:Hs; [discriminate|].
    destruct (armed s) as [|k [|k' rest]]; [discriminate| |contradiction].
    cbn in Hex. rewrite orb_false_r in Hex. apply Nat.eqb_eq in Hex. subst k.
    rewrite remove_handle_same. unfold loadUser_call. cbn.
    intros [= <- <-]; exact I.
  - destruct (suspended s) as [[|p]|] eqn:Hs; try discriminate.
    assert (Ha : armed s = []) by (apply Hsusp; congruence).
    unfold loadUser_token. cbn.
    destruct (negb (truthy (token s))); intros [= <- <-];
      unfold well_timed; cbn; now rewrite Ha.
  - destruct (suspended s) as [[|p]|] eqn:Hs; try discriminate.
    assert (Ha : armed s = []) by (apply Hsusp; congruence).
    intros [= <- <-]. unfold well_timed. cbn. now rewrite Ha.
  - destruct (suspended s) as [[|[gu gp]]|] eqn:Hs; [discriminate| |].
    + assert (Ha : armed s = []) by (apply Hsusp; congruence).
      destruct gu; [discriminate|].
      destruct r as [u|e]; [destruct gp as [pms|]|]; try now apply Hresume.
      intros [= <- <-]. unfold well_timed. cbn. now rewrite Ha.
    + intros [= <- <-]. exact Hwt0.
  - destruct (suspended s) as [[|[gu gp]]|] eqn:Hs; [discriminate| |].
    + assert (Ha : armed s = []) by (apply Hsusp; congruence).
      destruct gp; [discriminate|].
      destruct r as [pms|e]; [destruct gu as [u|]|]; try now apply Hresume.
      intros [= <- <-]. unfold well_timed. cbn. now rewrite Ha.
    + intros [= <- <-]. exact Hwt0.
Qed.

Lemma urun_well_timed (evs : list UEvent) :
  forall (s s' : Provider) (o : list (Effect User)),
  well_timed s -> urun s evs = Some (s', o) -> well_timed s'.
Proof.
  induction evs as [|ev evs IH]; intros s s' o Hs Hrun.
  - cbn in Hrun. now injection Hrun as <- <-.
  - apply urun_cons in Hrun as (s1 & o1 & o2 & Hstep & Hrun & ->).
    eapply IH; [|exact Hrun]. eapply ustep_well_timed; eauto.
Qed.

(** X9. The user feed holds at most one timer.  In every run of a mounted
    provider at most one timer is armed, [timeoutRef] holds its handle (so
    the cleanup function cancels it), and no timer is armed while
    [loadUser] is running, be it waiting for the session store or for the
    backend. *)
Theorem user_feed_single_timer (tok : option string) (root : string)
  (evs : list UEvent) (s : Provider) (o : list (Effect User)) :
  urun (fst (umount tok root)) evs = Some (s, o) ->
  (length (armed s) <= 1)%nat
  /\ (forall h, In h (armed s) -> timeoutRef s = Some h)
  /\ (suspended s <> None -> armed s = [])
  /\ armed (fst (ucleanup s)) = [].
Proof.
  intro Hrun.
  assert (H0 : well_timed (fst (umount tok root))) by exact I.
  pose proof (urun_well_timed evs _ _ _ H0 Hrun) as Hwt.
  unfold well_timed in Hwt. cbn.
  destruct (armed s) as [|h [|k rest]]; [| |contradiction].
  - repeat split; auto; try (intros ? []). now destruct (timeoutRef s).
  - destruct Hwt as (Href & Hs). rewrite Href, remove_handle_same.
    repeat split; auto.
    + intros k [<-|[]]. reflexivity.
    + congruence.
Qed.

Lemma user_feed_single_timer_witness :
  let evs := [GetAccessTokenSettles;
              GetPaymentMethodsSettles (Fulfilled sample_payment_methods);
              GetUserSettles (Fulfilled sample_user)] in
  let s := mkProvider (Some (attach sample_user sample_payment_methods))
                      (Some 0%nat) [0%nat] 1 (Some "token") "Home" None in
  urun (fst (umount (Some "token") "Home")) evs
  = Some (s, [BackendCall "getUser"; BackendCall "getPaymentMethods";
              SetState (attach sample_user sample_payment_methods);
              SetTimeout 5000])
  /\ armed (fst (ucleanup s)) = [].
Proof.
  cbn zeta. split; [reflexivity|].
  exact (proj2 (proj2 (proj2
    (user_feed_single_timer (Some "token") "Home"
       [GetAccessTokenSettles;
        GetPaymentMethodsSettles (Fulfilled sample_payment_methods);
        GetUserSettles (Fulfilled sample_user)]
       _ _ eq_refl)))).
Defined.

(** Every user record the effect [e] publishes carries payment methods. *)
Definition publishes_attached (e : Effect User) : Prop :=
  match e with
  | SetState u => paymentMethods u <> None
  | _ => True
  end.

Definition user_attached (s : Provider) : Prop :=
  match user s with
  | Some u => paymentMethods u <> None
  | None => True
  end.

Lemma loadUser_resume_attached (r : Settled (User * list PaymentMethod))
  (s : Provider) :
  user_attached s ->
  user_attached (fst (loadUser_resume r s))
  /\ Forall publishes_attached (snd (loadUser_resume r s)).
Proof.
  intro Hs. destruct r as [[u pms]|e]; cbn.
  - split; [discriminate|]. repeat constructor. discriminate.
  - destruct (is_unauthorized e); cbn; split; auto; repeat constructor.
Qed.

Lemma ustep_attached (s s' : Provider) (ev : UEvent) (o : list (Effect User)) :
  user_attached s -> ustep s ev = Some (s', o) ->
  user_attached s' /\ Forall publishes_attached o.
Proof.
  intro Hs.
  assert (Hresume : forall r,
            Some (loadUser_resume r (wake s)) = Some (s', o) ->
            user_attached s' /\ Forall publishes_attached o).
  { intros r [= H].
    pose proof (loadUser_resume_attached r (wake s) Hs) as Hres.
    rewrite H in Hres. exact Hres. }
  destruct ev as [|h| |e|r|r]; unfold ustep.
  - intros [= <- <-]. split; [exact Hs|constructor].
  - destruct (existsb _ _); [|discriminate].
    destruct (suspended s); [discriminate|].
    unfold loadUser_call. cbn.
    intros [= <- <-]; (split; [exact Hs|constructor]).
  - destruct (suspended s) as [[|p]|]; try discriminate.
    unfold loadUser_token. cbn.
    destruct (negb (truthy (token s))); intros [= <- <-];
      (split; [exact Hs|repeat constructor]).
  - destruct (suspended s) as [[|p]|]; try discriminate.
    intros [= <- <-]. split; [exact Hs|constructor].
  - destruct (suspended s) as [[|[gu gp]]|]; [discriminate| |].
    + destruct gu; [discriminate|].
      destruct r as [u|e]; [destruct gp as [pms|]|]; try now apply Hresume.
      intros [= <- <-]. split; [exact Hs|constructor].
    + intros [= <- <-]. split; [exact Hs|constructor].
  - destruct (suspended s) as [[|[gu gp]]|]; [discriminate| |].
    + destruct gp; [discriminate|].
      destruct r as [pms|e]; [destruct gu as [u|]|]; try now apply Hresume.
      intros [= <- <-]. split; [exact Hs|constructor].
    + intros [= <- <-]. split; [exact Hs|constructor].
Qed.

(** X10. A user is never published without payment methods.  In every run of a
    mounted provider, each record passed to [setUser], and the record the
    context holds, has its [paymentMethods] field set: consumers of the
    context never see a profile whose payment methods are still missing. *)
Theorem published_user_has_payment_methods (tok : option string)
  (root : string) (evs : list UEvent) (s : Provider) (o : list (Effect User)) :
  urun (fst (umount tok root)) evs = Some (s, o) ->
  Forall publishes_attached o /\ user_attached s.
Proof.
  assert (H0 : user_attached (fst (umount tok root))) by exact I.
  revert H0. generalize (fst (umount tok root)). revert s o.
  induction evs as [|ev evs IH]; intros s o s0 H0 Hrun.
  - cbn in Hrun. injection Hrun as <- <-. split; [constructor|exact H0].
  - apply urun_cons in Hrun as (s1 & o1 & o2 & Hstep & Hrun & ->).
    destruct (ustep_attached _ _ _ _ H0 Hstep) as (H1 & Ho1).
    destruct (IH s o2 s1 H1 Hrun) as (Ho2 & Hs).
    split; [apply Forall_app; auto | exact Hs].
Qed.

Lemma published_user_has_payment_methods_witness :
  let evs := [GetAccessTokenSettles;
              GetPaymentMethodsSettles (Fulfilled sample_payment_methods);
              GetUserSettles (Fulfilled sample_user)] in
  let s := mkProvider (Some (attach sample_user sample_payment_methods))
                      (Some 0%nat) [0%nat] 1 (Some "token") "Home" None in
  let o := [BackendCall "getUser"; BackendCall "getPaymentMethods";
            SetState (attach sample_user sample_payment_methods);
            SetTimeout 5000] in
  urun (fst (umount (Some "token") "Home")) evs = Some (s, o)
  /\ Forall publishes_attached o
  /\ user_attached s.
Proof.
  cbn zeta. split; [reflexivity|].
  exact (published_user_has_payment_methods (Some "token") "Home"
           [GetAccessTokenSettles;
            GetPaymentMethodsSettles (Fulfilled sample_payment_methods);
            GetUserSettles (Fulfilled sample_user)]
           _ _ eq_refl).
Defined.



End PollingFacts.

(* ===================================================================== *)
(** * The approve dialog ([components/FundsPullPreApproval/ApproveModal.tsx]) *)
(* ===================================================================== *)

Module ApproveModal.

Import Polling.

(** The type ["edit" | "fail" | "success"] of [submitStatus]. *)
Inductive SubmitStatus : Type := edit | fail | success.

(** What the dialog calls on its collaborators. *)
Inductive Call : Type :=
| UpdateApprovalStatus (id status : string)   (* backendClient.updateApprovalStatus *)
| RefreshUser                                 (* backendClient.refreshUser *)
| LogError (e : Thrown)                       (* console.error(e) *)
| LogUnexpected (text : string) (e : Thrown)  (* console.error(text, e) *)
| OnClose.                                    (* the [onClose] prop *)

(** One mounted dialog: its two state hooks, and the invocations that are
    suspended at an [await]: those of [updateApproval] waiting for the
    status update, those waiting for the refresh that follows it, and
    those of the effect's [refreshUser]. *)
Record Modal : Type := mkModal {
  submitStatus : SubmitStatus;
  errorMessage : option string;
  updating : nat;
  refreshing : nat;
  mount_refreshing : nat
}.

Definition MAction : Type := Modal -> Modal * list Call.

Definition mseq (a b : MAction) : MAction :=
  fun s => let (s1, o1) := a s in let (s2, o2) := b s1 in (s2, o1 ++ o2).

Notation "a >> b" := (mseq a b) (at level 61, right associativity).

Definition setSubmitStatus (v : SubmitStatus) : MAction :=
  fun s => (mkModal v (errorMessage s) (updating s) (refreshing s)
                    (mount_refreshing s), []).

Definition setErrorMessage (v : option string) : MAction :=
  fun s => (mkModal (submitStatus s) v (updating s) (refreshing s)
                    (mount_refreshing s), []).

Definition emit (c : Call) : MAction := fun s => (s, [c]).

Section Dialog.

(** The translation function of [useTranslation], and the [approval] prop. *)
Variable t : string -> string.
Variable approval : Approvals.Approval.

(** The effect's [refreshUser] up to its [await]. *)
Definition refreshUser_call : MAction :=
  fun s => (mkModal (submitStatus s) (errorMessage s) (updating s)
                    (refreshing s) (S (mount_refreshing s)), [RefreshUser]).

Definition refreshUser_resume (r : Settled unit) : MAction :=
  match r with
  | Fulfilled _ => fun s => (s, [])
  | Rejected e => emit (LogError e)
  end.

(** The [catch] clause of [updateApproval]. *)
Definition updateApproval_catch (e : Thrown) : MAction :=
  setSubmitStatus fail >>
  match e with
  | BackendError _ message => setErrorMessage (Some message)
  | OtherError _ =>
      setErrorMessage (Some (t "modals.internal_error")) >>
      emit (LogUnexpected (t "modals.unexpected_error") e)
  end.

(** [updateApproval] up to the first [await]. *)
Definition updateApproval_call : MAction :=
  setErrorMessage None >>
  setSubmitStatus edit >>
  (fun s => (mkModal (submitStatus s) (errorMessage s) (S (updating s))
                     (refreshing s) (mount_refreshing s),
             [UpdateApprovalStatus
                (Approvals.funds_pull_pre_approval_id approval) "valid"])).

(** From the first [await] to the second. *)
Definition updateApproval_updated (r : Settled unit) : MAction :=
  match r with
  | Fulfilled _ =>
      setSubmitStatus success >>
      (fun s => (mkModal (submitStatus s) (errorMessage s) (updating s)
                         (S (refreshing s)) (mount_refreshing s),
                 [RefreshUser]))
  | Rejected e => updateApproval_catch e
  end.

(** From the second [await] on. *)
Definition updateApproval_refreshed (r : Settled unit) : MAction :=
  match r with
  | Fulfilled _ => fun s => (s, [])
  | Rejected e => updateApproval_catch e
  end.

Definition onModalClose : MAction :=
  setSubmitStatus edit >> setErrorMessage None >> emit OnClose.

(** ** What the dialog shows *)

Record View : Type := mkView {
  error_shown : option string;      (* the text of <ErrorMessage /> *)
  success_shown : bool;             (* <SuccessMessage /> and "done" *)
  approve_offered : bool            (* the question, "cancel" and "approve" *)
}.

(** [errorMessage && ...]: an undefined or empty message shows nothing. *)
Definition render (s : Modal) : View :=
  mkView
    (match errorMessage s with
     | Some m => if m === "" then None else Some m
     | None => None
     end)
    (match submitStatus s with success => true | _ => false end)
    (match submitStatus s with success => false | _ => true end).

(** ** Events *)

Inductive MEvent : Type :=
| ClickApprove                      (* the "approve" button *)
| ClickClose                        (* the close, "cancel" or "done" button *)
| UpdateSettles (r : Settled unit)
| RefreshSettles (r : Settled unit)
| MountRefreshSettles (r : Settled unit).

(** One event of an open dialog; [None] when it cannot occur: a button that
    is not shown, a request that was not issued. *)
Definition mstep (s : Modal) (ev : MEvent) : option (Modal * list Call) :=
  match ev with
  | ClickApprove =>
      if approve_offered (render s) then Some (updateApproval_call s) else None
  | ClickClose => Some (onModalClose s)
  | UpdateSettles r =>
      match updating s with
      | O => None
      | S n => Some (updateApproval_updated r
                       (mkModal (submitStatus s) (errorMessage s) n
                                (refreshing s) (mount_refreshing s)))
      end
  | RefreshSettles r =>
      match refreshing s with
      | O => None
      | S n => Some (updateApproval_refreshed r
                       (mkModal (submitStatus s) (errorMessage s) (updating s)
                                n (mount_refreshing s)))
      end
  | MountRefreshSettles r =>
      match mount_refreshing s with
      | O => None
      | S n => Some (refreshUser_resume r
                       (mkModal (submitStatus s) (errorMessage s) (updating s)
                                (refreshing s) n))
      end
  end.

Fixpoint mrun (s : Modal) (evs : list MEvent) : option (Modal * list Call) :=
  match evs with
  | [] => Some (s, [])
  | ev :: rest =>
      match mstep s ev with
      | None => None
      | Some (s1, o1) =>
          match mrun s1 rest with
          | None => None
          | Some (s2, o2) => Some (s2, o1 ++ o2)
          end
      end
  end.

(** Mounting: the hooks' initial values, and the effect's [refreshUser]. *)
Definition mmount : Modal * list Call :=
  refreshUser_call (mkModal edit None 0 0 0).

End Dialog.

(** ** Properties of the dialog *)

Section DialogFacts.

Variable t : string -> string.
Variable approval : Approvals.Approval.

Let id : string := Approvals.funds_pull_pre_approval_id approval.

Definition is_update (c : Call) : bool :=
  match c with UpdateApprovalStatus _ _ => true | _ => false end.

Definition is_refresh (c : Call) : bool :=
  match c with RefreshUser => true | _ => false end.

(** The number of clicks on "approve" among events. *)
Definition clicks (evs : list MEvent) : nat :=
  length (filter (fun ev => match ev with ClickApprove => true | _ => false end) evs).

(** The number of status updates that succeeded among events. *)
Definition updates_fulfilled (evs : list MEvent) : nat :=
  length (filter (fun ev => match ev with
                            | UpdateSettles (Fulfilled _) => true
                            | _ => false
                            end) evs).

(** The number of status updates that failed among events. *)
Definition updates_rejected (evs : list MEvent) : nat :=
  length (filter (fun ev => match ev with
                            | UpdateSettles (Rejected _) => true
                            | _ => false
                            end) evs).

Lemma mrun_cons (s : Modal) (ev : MEvent) (evs : list MEvent)
  (s2 : Modal) (o : list Call) :
  mrun t approval s (ev :: evs) = Some (s2, o) ->
  exists s1 o1 o2,
    mstep t approval s ev = Some (s1, o1)
    /\ mrun t approval s1 evs = Some (s2, o2) /\ o = o1 ++ o2.
Proof.
  cbn. destruct (mstep t approval s ev) as [[s1 o1]|] eqn:Hstep; [|discriminate].
  destruct (mrun t approval s1 evs) as [[s2' o2]|] eqn:Hrun; [|discriminate].
  intros [= <- <-]. exists s1, o1, o2. auto.
Qed.

Lemma mstep_requests (s s' : Modal) (ev : MEvent) (o : list Call) :
  mstep t approval s ev = Some (s', o) ->
  filter is_update o
  = repeat (UpdateApprovalStatus id "valid") (clicks [ev])
  /\ length (filter is_refresh o) = updates_fulfilled [ev]
  /\ (updating s + clicks [ev]
      = updating s' + updates_fulfilled [ev] + updates_rejected [ev])%nat.
Proof.
  destruct s as [st em u r m].
  destruct ev as [| |[[]|e]|[[]|e]|[[]|e]]; cbn.
  - destruct st; cbn; intros [= <- <-]; cbn; repeat split; lia.
  - intros [= <- <-]. cbn. repeat split; lia.
  - destruct u; [discriminate|]. intros [= <- <-]. cbn. repeat split; lia.
  - destruct u; [discriminate|].
    destruct e; intros [= <- <-]; cbn; repeat split; lia.
  - destruct r; [discriminate|]. intros [= <- <-]. cbn. repeat split; lia.
  - destruct r; [discriminate|].
    destruct e; intros [= <- <-]; cbn; repeat split; lia.
  - destruct m; [discriminate|]. intros [= <- <-]. cbn. repeat split; lia.
  - destruct m; [discriminate|]. intros [= <- <-]. cbn. repeat split; lia.
Qed.

Lemma length_filter_cons {A : Type} (p : A -> bool) (x : A) (l : list A) :
  length (filter p (x :: l)) = (length (filter p [x]) + length (filter p l))%nat.
Proof. cbn. destruct (p x); reflexivity. Qed.

(** X12. Each click sends one request, and only a successful update is followed
    by a refresh.  In any run of the dialog, the status updates requested
    are one per click on "approve", each for this approval's id with the
    status "valid"; the refreshes requested by [updateApproval] are as many
    as the updates that succeeded; and every update requested has
    succeeded, failed or is still in flight. *)
Theorem one_update_per_click (evs : list MEvent) :
  forall (s s' : Modal) (o : list Call),
  mrun t approval s evs = Some (s', o) ->
  filter is_update o = repeat (UpdateApprovalStatus id "valid") (clicks evs)
  /\ length (filter is_refresh o) = updates_fulfilled evs
  /\ (updating s + clicks evs
      = updating s' + updates_fulfilled evs + updates_rejected evs)%nat.
Proof.
  induction evs as [|ev evs IH]; intros s s' o Hrun.
  - cbn in Hrun. injection Hrun as <- <-. cbn. repeat split; lia.
  - apply mrun_cons in Hrun as (s1 & o1 & o2 & Hstep & Hrun & ->).
    destruct (mstep_requests _ _ _ _ Hstep) as (Hu1 & Hr1 & Hc1).
    destruct (IH _ _ _ Hrun) as (Hu2 & Hr2 & Hc2).
    unfold clicks, updates_fulfilled, updates_rejected in *.
    rewrite !filter_app, !length_app, Hu1, Hu2, Hr1, Hr2.
    rewrite (length_filter_cons _ ev evs).
    rewrite (length_filter_cons
               (fun ev => match ev with
                          | UpdateSettles (Fulfilled _) => true
                          | _ => false
                          end) ev evs).
    rewrite (length_filter_cons
               (fun ev => match ev with
                          | UpdateSettles (Rejected _) => true
                          | _ => false
                          end) ev evs).
    rewrite repeat_app. repeat split; lia.
Qed.

(** A click on "approve" finds nothing of [updateApproval] in flight. *)
Fixpoint one_at_a_time (s : Modal) (evs : list MEvent) : bool :=
  match evs with
  | [] => true
  | ev :: rest =>
      match ev with
      | ClickApprove => Nat.eqb (updating s) 0 && Nat.eqb (refreshing s) 0
      | _ => true
      end
      && match mstep t approval s ev with
         | Some (s1, _) => one_at_a_time s1 rest
         | None => true
         end
  end.

(** No error is set while a request of [updateApproval] is in flight or
    after it has succeeded. *)
Definition consistent (s : Modal) : Prop :=
  (updating s + refreshing s <= 1)%nat
  /\ (updating s + refreshing s = 1 -> errorMessage s = None)%nat
  /\ (submitStatus s = success -> errorMessage s = None).

Lemma mstep_consistent (s s' : Modal) (ev : MEvent) (o : list Call) :
  consistent s -> one_at_a_time s [ev] = true ->
  mstep t approval s ev = Some (s', o) -> consistent s'.
Proof.
  unfold consistent. destruct s as [st em u r m]. cbn.
  intros (Hle & Hfl & Hsu) Hone.
  destruct ev as [| |[[]|e]|[[]|e]|[[]|e]]; cbn.
  - cbn in Hone. destruct u; [|discriminate]. destruct r; [|discriminate].
    destruct st; cbn; intros [= <- <-]; cbn; repeat split; auto; lia.
  - intros [= <- <-]. cbn. repeat split; auto.
  - destruct u; [discriminate|]. intros [= <- <-]. cbn.
    assert (em = None) by (apply Hfl; lia). repeat split; auto; lia.
  - destruct u; [discriminate|].
    destruct e; intros [= <- <-]; cbn; repeat split;
      try lia; try discriminate.
  - destruct r; [discriminate|]. intros [= <- <-]. cbn.
    assert (em = None) by (apply Hfl; lia). repeat split; auto; lia.
  - destruct r; [discriminate|].
    destruct e; intros [= <- <-]; cbn; repeat split;
      try lia; try discriminate.
  - destruct m; [discriminate|]. intros [= <- <-]. cbn. auto.
  - destruct m; [discriminate|]. intros [= <- <-]. cbn. auto.
Qed.

(** X13. Used one request at a time, the dialog never shows success and an
    error together: in any run from the mount in which "approve" is only
    clicked while no earlier click's requests are in flight, the success
    message is shown with no error message.  The button is not disabled
    while a request is in flight, and without that restraint the two can
    be shown together: click twice, let the first update fail and the
    second succeed. *)
Theorem success_shows_no_error (evs : list MEvent) (s : Modal) (o : list Call) :
  mrun t approval (fst mmount) evs = Some (s, o) ->
  (one_at_a_time (fst mmount) evs = true ->
   success_shown (render s) = true -> error_shown (render s) = None)
  /\ (forall m : string, m <> "" ->
      exists s2 o2,
        mrun t approval (fst mmount)
             [ClickApprove; ClickApprove;
              UpdateSettles (Rejected (BackendError 400 m));
              UpdateSettles (Fulfilled tt)]
        = Some (s2, o2)
        /\ success_shown (render s2) = true
        /\ error_shown (render s2) = Some m).
Proof.
  intro Hrun. split.
  - intro Hone.
    assert (H0 : consistent (fst mmount)).
    { unfold consistent. cbn. repeat split; auto; lia. }
    assert (Hs : consistent s).
    { revert Hrun Hone H0. generalize (fst mmount). revert s o.
      induction evs as [|ev evs IH]; intros s o s0 Hrun Hone H0.
      - cbn in Hrun. now injection Hrun as <- <-.
      - apply mrun_cons in Hrun as (s1 & o1 & o2 & Hstep & Hrun & ->).
        cbn [one_at_a_time] in Hone. rewrite Hstep in Hone.
        apply andb_prop in Hone as (Hev & Hrest).
        apply (IH s o2 s1 Hrun Hrest).
        eapply mstep_consistent; eauto.
        cbn [one_at_a_time]. rewrite Hev, Hstep. reflexivity. }
    destruct Hs as (_ & _ & Hsu). unfold render. cbn.
    destruct (submitStatus s); try discriminate.
    intros _. now rewrite Hsu.
  - intros m Hm.
    exists (mkModal success (Some m) 0 1 1),
           [UpdateApprovalStatus id "valid"; UpdateApprovalStatus id "valid";
            RefreshUser].
    split; [reflexivity|].
    unfold render. cbn. apply String.eqb_neq in Hm. rewrite Hm. auto.
Qed.

(** The text of the error an exception leaves in [errorMessage]. *)
Definition message_of (e : Thrown) : string :=
  match e with
  | BackendError _ message => message
  | OtherError _ => t "modals.internal_error"
  end.

(** What [console.error] receives for an exception. *)
Definition logged_for (e : Thrown) : list Call :=
  match e with
  | BackendError _ _ => []
  | OtherError _ => [LogUnexpected (t "modals.unexpected_error") e]
  end.

(** Nothing of [updateApproval] is in flight. *)
Definition settled (s : Modal) : bool :=
  Nat.eqb (updating s) 0 && Nat.eqb (refreshing s) 0.

(** X14. A refresh that fails turns a successful approval into a reported
    failure.  From any state in which "approve" is offered and nothing is
    in flight: click, let the status update succeed and the refresh that
    follows fail.  The update was requested and no further one; yet the
    dialog ends in the "fail" state with the error's text, and offers
    "approve" again. *)
Theorem failed_refresh_reports_failure (s : Modal) (e : Thrown) :
  approve_offered (render s) = true ->
  settled s = true ->
  exists s',
    mrun t approval s
         [ClickApprove; UpdateSettles (Fulfilled tt); RefreshSettles (Rejected e)]
    = Some (s', [UpdateApprovalStatus id "valid"; RefreshUser] ++ logged_for e)
    /\ submitStatus s' = fail
    /\ errorMessage s' = Some (message_of e)
    /\ success_shown (render s') = false
    /\ approve_offered (render s') = true
    /\ settled s' = true.
Proof.
  intros Hoffer Hsettled. destruct s as [st em u r m].
  unfold settled in Hsettled. cbn in Hsettled.
  destruct u; [|discriminate]. destruct r; [|discriminate].
  exists (mkModal fail (Some (message_of e)) 0 0 m).
  cbn [mrun mstep]. rewrite Hoffer.
  destruct e; cbn; repeat split.
Qed.

(** X15. A status update that fails is reported, unless the error has no text.
    From any state in which "approve" is offered and nothing is in flight:
    click and let the status update fail.  No refresh is requested; the
    dialog ends in the "fail" state and offers "approve" again; an
    exception that is not a [BackendError] is logged and shows the generic
    text; and the error's text is displayed exactly when it is not empty,
    so a [BackendError] with an empty message fails silently. *)
Theorem failed_update_is_reported (s : Modal) (e : Thrown) :
  approve_offered (render s) = true ->
  settled s = true ->
  exists s',
    mrun t approval s [ClickApprove; UpdateSettles (Rejected e)]
    = Some (s', UpdateApprovalStatus id "valid" :: logged_for e)
    /\ submitStatus s' = fail
    /\ error_shown (render s')
       = (if message_of e === "" then None else Some (message_of e))
    /\ success_shown (render s') = false
    /\ approve_offered (render s') = true
    /\ settled s' = true.
Proof.
  intros Hoffer Hsettled. destruct s as [st em u r m].
  unfold settled in Hsettled. cbn in Hsettled.
  destruct u; [|discriminate]. destruct r; [|discriminate].
  exists (mkModal fail (Some (message_of e)) 0 0 m).
  cbn [mrun mstep]. rewrite Hoffer.
  destruct e; cbn; repeat split.
Qed.

End DialogFacts.

(** ** A dialog in English *)

Definition english (key : string) : string :=
  if key === "modals.internal_error" then "Internal error"
  else if key === "modals.unexpected_error" then "Unexpected error"
  else key.

Definition conflict : Thrown := BackendError 409 "Approval is not pending".

Lemma one_update_per_click_witness :
  let evs := [ClickApprove; UpdateSettles (Rejected conflict); ClickApprove;
              UpdateSettles (Fulfilled tt)] in
  let o := [UpdateApprovalStatus "fppa-4" "valid";
            UpdateApprovalStatus "fppa-4" "valid"; RefreshUser] in
  mrun english ApprovalsPage.pending_approval (fst mmount) evs
  = Some (mkModal success None 0 1 1, o)
  /\ filter is_update o
     = repeat (UpdateApprovalStatus "fppa-4" "valid") (clicks evs)
  /\ length (filter is_refresh o) = updates_fulfilled evs.
Proof.
  cbn zeta. split; [reflexivity|].
  destruct (one_update_per_click english ApprovalsPage.pending_approval
              [ClickApprove; UpdateSettles (Rejected conflict); ClickApprove;
               UpdateSettles (Fulfilled tt)]
              (fst mmount) (mkModal success None 0 1 1)
              [UpdateApprovalStatus "fppa-4" "valid";
               UpdateApprovalStatus "fppa-4" "valid"; RefreshUser]
              eq_refl) as (Hu & Hr & _).
  split; [exact Hu | exact Hr].
Defined.

Lemma success_shows_no_error_witness :
  let evs := [ClickApprove; UpdateSettles (Rejected conflict); ClickApprove;
              UpdateSettles (Fulfilled tt)] in
  one_at_a_time english ApprovalsPage.pending_approval (fst mmount) evs = true
  /\ error_shown (render (mkModal success None 0 1 1)) = None.
Proof.
  cbn zeta. split; [reflexivity|].
  exact (proj1 (success_shows_no_error english ApprovalsPage.pending_approval
                  [ClickApprove; UpdateSettles (Rejected conflict); ClickApprove;
                   UpdateSettles (Fulfilled tt)]
                  (mkModal success None 0 1 1)
                  [UpdateApprovalStatus "fppa-4" "valid";
                   UpdateApprovalStatus "fppa-4" "valid"; RefreshUser]
                  eq_refl) eq_refl eq_refl).
Defined.

Lemma failed_refresh_reports_failure_witness :
  exists s',
    mrun english ApprovalsPage.pending_approval (fst mmount)
         [ClickApprove; UpdateSettles (Fulfilled tt);
          RefreshSettles (Rejected network_error)]
    = Some (s', [UpdateApprovalStatus "fppa-4" "valid"; RefreshUser;
                 LogUnexpected "Unexpected error" network_error])
    /\ submitStatus s' = fail
    /\ errorMessage s' = Some "Internal error".
Proof.
  destruct (failed_refresh_reports_failure english ApprovalsPage.pending_approval
              (fst mmount) network_error eq_refl eq_refl)
    as (s' & Hrun & Hst & Hem & _).
  exists s'. split; [exact Hrun | split; [exact Hst | exact Hem]].
Defined.

Lemma failed_update_is_reported_witness :
  exists s',
    mrun english ApprovalsPage.pending_approval (fst mmount)
         [ClickApprove; UpdateSettles (Rejected (BackendError 500 ""))]
    = Some (s', [UpdateApprovalStatus "fppa-4" "valid"])
    /\ submitStatus s' = fail
    /\ error_shown (render s') = None.
Proof.
  destruct (failed_update_is_reported english ApprovalsPage.pending_approval
              (fst mmount) (BackendError 500 "") eq_refl eq_refl)
    as (s' & Hrun & Hst & Hem & _).
  exists s'. split; [exact Hrun | split; [exact Hst | exact Hem]].
Defined.

End ApproveModal.

(* ===================================================================== *)
(** * Further properties of the total balance                            *)
(* ===================================================================== *)

Module BalanceFacts.

Import Balance.

Local Open Scope float_scope.

(** ** Not-a-number is absorbing *)

Lemma add_nan_r (x : float) : x + nan = nan.
Proof.
  apply Prim2SF_inj. rewrite add_spec. change (Prim2SF nan) with S754_nan.
  unfold SF64add. destruct (Prim2SF x); reflexivity.
Qed.

Lemma add_nan_l (x : float) : nan + x = nan.
Proof.
  apply Prim2SF_inj. rewrite add_spec. change (Prim2SF nan) with S754_nan.
  reflexivity.
Qed.

Lemma mul_nan_r (x : float) : x * nan = nan.
Proof.
  apply Prim2SF_inj. rewrite mul_spec. change (Prim2SF nan) with S754_nan.
  unfold SF64mul. destruct (Prim2SF x); reflexivity.
Qed.

Section Totals.

Variable libraToFloat : float -> float.

Variable builtin : string -> string -> Throws float.

(** ** When the reduction throws *)

(** Reading [rates[currency][fiat]] throws: the currency is neither an own
    key of [rates] nor a name of [Object.prototype], so that a property of
    [undefined] is read; or it is such a name and reading the property of
    the built-in throws. *)
Definition rate_read_throws (rates : Dict Rate) (fiat : string)
  (cb : LibraCurrencyBalance) : Prop :=
  get rates (currency cb) = Undefined
  \/ (get rates (currency cb) = Inherited /\ builtin (currency cb) fiat = None).

Lemma reduce_mobile_throws (rates : Dict Rate) (fiat : string)
  (balances : list LibraCurrencyBalance) :
  forall acc : float,
  reduce (mobile_callback libraToFloat builtin rates fiat) balances acc = None
  <-> exists cb, In cb balances /\ rate_read_throws rates fiat cb.
Proof.
  induction balances as [|cb rest IH]; intro acc; cbn [reduce].
  - split; [discriminate | intros (cb & [] & _)].
  - assert (Hlater : forall acc',
              ~ rate_read_throws rates fiat cb ->
              reduce (mobile_callback libraToFloat builtin rates fiat) rest acc'
              = None
              <-> exists cb', In cb' (cb :: rest)
                              /\ rate_read_throws rates fiat cb').
    { intros acc' Hok. rewrite IH. split.
      - intros (cb' & Hin & Hthrows). exists cb'. split; [now right|exact Hthrows].
      - intros (cb' & [<-|Hin] & Hthrows); [contradiction|].
        exists cb'. auto. }
    unfold mobile_callback at 1.
    destruct (get rates (currency cb)) as [r| |] eqn:Hget.
    + apply Hlater. unfold rate_read_throws. rewrite Hget.
      intros [H|[H _]]; discriminate.
    + destruct (builtin (currency cb) fiat) as [x|] eqn:Hb.
      * apply Hlater. unfold rate_read_throws. rewrite Hget, Hb.
        intros [H|[_ H]]; discriminate.
      * split; [|reflexivity]. intros _. exists cb.
        split; [now left|]. right. now rewrite Hget.
    + split; [|reflexivity]. intros _. exists cb.
      split; [now left|]. now left.
Qed.

(** X16. The total exists unless reading a rate throws.  The mobile
    component's reduction throws if and only if, for some balance held,
    reading [rates[currency][fiat]] throws: the currency is neither an own
    key of the rates nor a name of [Object.prototype], or it is such a name
    and reading the property of the built-in throws.  In particular the
    total exists when every currency held is an own key of the rates, and
    an empty list of balances gives the total 0. *)
Theorem total_throws_iff_rate_read_throws (rates : Dict Rate) (fiat : string)
  (balances : list LibraCurrencyBalance) :
  (mobile_totalFiatBalance libraToFloat builtin balances fiat rates = None
   <-> exists cb, In cb balances /\ rate_read_throws rates fiat cb)
  /\ ((forall cb, In cb balances -> exists r, get rates (currency cb) = Own r) ->
      exists total,
        mobile_totalFiatBalance libraToFloat builtin balances fiat rates
        = Some total)
  /\ mobile_totalFiatBalance libraToFloat builtin [] fiat rates = Some 0.
Proof.
  split; [apply reduce_mobile_throws | split; [|reflexivity]].
  intro Hown.
  destruct (mobile_totalFiatBalance libraToFloat builtin balances fiat rates)
    as [total|] eqn:Htotal; [now exists total|].
  apply reduce_mobile_throws in Htotal as (cb & Hin & Hthrows).
  destruct (Hown cb Hin) as (r & Hr). unfold rate_read_throws in Hthrows.
  rewrite Hr in Hthrows. destruct Hthrows as [H|[H _]]; discriminate.
Qed.

(** ** A rate that is missing *)

Lemma reduce_mobile_nan (rates : Dict Rate) (fiat : string)
  (balances : list LibraCurrencyBalance) :
  (forall cb, In cb balances -> exists r, get rates (currency cb) = Own r) ->
  reduce (mobile_callback libraToFloat builtin rates fiat) balances nan
  = Some nan.
Proof.
  induction balances as [|cb rest IH]; intro Hall; [reflexivity|].
  cbn [reduce]. unfold mobile_callback at 1.
  destruct (Hall cb (or_introl eq_refl)) as (r & ->).
  rewrite add_nan_l. apply IH. intros cb' Hin. apply Hall. now right.
Qed.

(** X17. One missing rate spoils the whole total.  When every currency held is
    listed but, for one of them, the rate into the chosen fiat currency is
    missing, the total is NaN, whatever the other balances and rates
    are and whatever the conversion from minor units is. *)
Theorem missing_rate_makes_total_nan (rates : Dict Rate) (fiat : string)
  (balances : list LibraCurrencyBalance) (cb : LibraCurrencyBalance) (r : Rate) :
  (forall cb', In cb' balances -> exists r', get rates (currency cb') = Own r') ->
  In cb balances ->
  get rates (currency cb) = Own r ->
  (forall x, get r fiat <> Own x) ->
  mobile_totalFiatBalance libraToFloat builtin balances fiat rates = Some nan.
Proof.
  unfold mobile_totalFiatBalance. generalize 0.
  induction balances as [|cb' rest IH]; intros acc Hall Hin Hr Hfiat;
    [destruct Hin|].
  cbn [reduce]. unfold mobile_callback at 1.
  destruct (Hall cb' (or_introl eq_refl)) as (r' & Hget). rewrite Hget.
  destruct Hin as [->|Hin].
  - rewrite Hr in Hget. injection Hget as <-.
    assert (Hnan : to_number (get r fiat) = nan).
    { destruct (get r fiat) as [x| |] eqn:Hx; [|reflexivity|reflexivity].
      exfalso. now apply (Hfiat x). }
    cbn zeta. rewrite Hnan, mul_nan_r, add_nan_r.
    apply reduce_mobile_nan. intros cb2 Hin2. apply Hall. now right.
  - apply IH; auto. intros cb2 Hin2. apply Hall. now right.
Qed.

(** ** The two components agree *)

(** The rates that the web settings hold, in the shape the mobile
    component takes them. *)
Definition rates_of (cs : Dict CurrencySettings) : Dict Rate :=
  map (fun kc => (fst kc, Balance.rates (snd kc))) cs.

Lemma get_own_rates_of (cs : Dict CurrencySettings) (k : string) :
  get_own (rates_of cs) k = option_map Balance.rates (get_own cs k).
Proof.
  induction cs as [|[k' c] rest IH]; [reflexivity|].
  cbn. destruct (k' === k); [reflexivity|exact IH].
Qed.

Lemma get_rates_of (cs : Dict CurrencySettings) (k : string)
  (c : CurrencySettings) :
  get cs k = Own c -> get (rates_of cs) k = Own (Balance.rates c).
Proof.
  unfold get. rewrite get_own_rates_of.
  destruct (get_own cs k) as [c'|]; cbn [option_map].
  - now intros [= ->].
  - destruct (existsb (fun name => name === k) Object_prototype);
      discriminate.
Qed.

Lemma reduce_ext {A B : Type} (f g : B -> A -> Throws B) (xs : list A) :
  (forall acc x, In x xs -> f acc x = g acc x) ->
  forall acc, reduce f xs acc = reduce g xs acc.
Proof.
  induction xs as [|x rest IH]; intros Hfg acc; [reflexivity|].
  cbn. rewrite (Hfg acc x (or_introl eq_refl)).
  destruct (g acc x); [|reflexivity].
  apply IH. intros acc' y Hy. apply Hfg. now right.
Qed.

Lemma reduce_web_throws (f : float -> float) (settings : Settings)
  (balances : list LibraCurrencyBalance) :
  forall acc : float,
  (exists cb, In cb balances
              /\ forall c, get (currencies settings) (currency cb) <> Own c) ->
  reduce (web_callback f settings) balances acc = None.
Proof.
  induction balances as [|cb rest IH]; intros acc (cb' & Hin & Hnot);
    [destruct Hin|].
  cbn [reduce]. unfold web_callback at 1.
  destruct (get (currencies settings) (currency cb)) as [c| |] eqn:Hget;
    [|reflexivity|reflexivity].
  destruct Hin as [->|Hin]; [now destruct (Hnot c)|].
  apply IH. exists cb'. auto.
Qed.

(** The web application's own [libraToFloat]: the two applications import
    the function from two different source trees. *)
Variable web_libraToFloat : float -> float.

(** X18. The web component computes what the mobile component computes.
    Suppose an account is loaded, a default fiat currency is chosen, and
    the conversions from minor units of the two applications agree on the
    amounts held.  When every currency held is an own key of the settings'
    currencies, the web component's total is the mobile component's total
    for the account's balances, that fiat currency and the rates held in
    the settings.  When some currency held is not an own key, the web
    component throws, whatever the mobile component does. *)
Theorem web_total_is_mobile_total (settings : Settings) (acc : Account)
  (fiat : string) :
  account settings = Some acc ->
  defaultFiatCurrencyCode settings = Some fiat ->
  (forall cb, In cb (balances acc) ->
     web_libraToFloat (balance cb) = libraToFloat (balance cb)) ->
  ((forall cb, In cb (balances acc) ->
      exists c, get (currencies settings) (currency cb) = Own c) ->
   web_totalFiatBalance web_libraToFloat settings
   = Some (mobile_totalFiatBalance libraToFloat builtin (balances acc) fiat
             (rates_of (currencies settings))))
  /\ ((exists cb, In cb (balances acc)
                  /\ forall c, get (currencies settings) (currency cb) <> Own c) ->
      web_totalFiatBalance web_libraToFloat settings = Some None).
Proof.
  intros Hacc Hfiat Hsame. unfold web_totalFiatBalance, mobile_totalFiatBalance.
  rewrite Hacc. split.
  - intro Hown. f_equal. apply reduce_ext. intros total cb Hin.
    unfold web_callback, mobile_callback.
    destruct (Hown cb Hin) as (c & Hc).
    rewrite (get_rates_of _ _ _ Hc), Hc, Hfiat, (Hsame cb Hin). reflexivity.
  - intro Hnot. f_equal. now apply reduce_web_throws.
Qed.

End Totals.

(** Two balances, the second in a currency whose USD rate is missing. *)
Definition two_balances : list LibraCurrencyBalance :=
  [mkBalance "XUS" 500000; mkBalance "XDX" 1000000].

Definition partial_rates : Dict Rate :=
  [("XUS", [("USD", 1)]); ("XDX", [("EUR", 1)])].

(** Built-ins whose properties all convert to NaN. *)
Definition nan_builtin : string -> string -> Throws float :=
  fun _ _ => Some nan.

Lemma total_throws_iff_rate_read_throws_witness :
  mobile_totalFiatBalance libraToFloat nan_builtin two_balances "USD"
                          [("XUS", [("USD", 1)])]
  = None.
Proof.
  apply (proj2 (proj1 (total_throws_iff_rate_read_throws libraToFloat nan_builtin
                         [("XUS", [("USD", 1)])] "USD" two_balances))).
  exists (mkBalance "XDX" 1000000).
  split; [right; left; reflexivity|left; reflexivity].
Defined.

Lemma missing_rate_makes_total_nan_witness :
  mobile_totalFiatBalance libraToFloat nan_builtin two_balances "USD"
                          partial_rates
  = Some nan.
Proof.
  apply (missing_rate_makes_total_nan libraToFloat nan_builtin partial_rates "USD"
           two_balances (mkBalance "XDX" 1000000) [("EUR", 1)]).
  - intros cb [<-|[<-|[]]]; eexists; reflexivity.
  - right. left. reflexivity.
  - reflexivity.
  - intros x. discriminate.
Defined.

Lemma web_total_is_mobile_total_witness :
  web_totalFiatBalance libraToFloat example_settings
  = Some (mobile_totalFiatBalance libraToFloat nan_builtin example_balances "USD"
            (rates_of (currencies example_settings))).
Proof.
  apply (proj1 (web_total_is_mobile_total libraToFloat nan_builtin libraToFloat
                  example_settings (mkAccount example_balances) "USD"
                  eq_refl eq_refl (fun cb _ => eq_refl))).
  intros cb [<-|[]]. eexists. reflexivity.
Defined.

End BalanceFacts.

(* ===================================================================== *)
(** * The deposit review ([DepositReview], in [components/TotalBalance.tsx]) *)
(* ===================================================================== *)

Module DepositReview.

Import Balance.

(** ** [String.prototype.split] with a one-character separator *)

Fixpoint split (sep : Ascii.ascii) (s : string) : list string :=
  match s with
  | EmptyString => [EmptyString]
  | String c rest =>
      if Ascii.eqb c sep then EmptyString :: split sep rest
      else match split sep rest with
           | head :: tail => String c head :: tail
           | [] => [String c EmptyString]
           end
  end.




(** ** The data the component selects *)






(** ** Decoding the currency pair *)








End DepositReview.
